(** * Aware: the first-party command, listener and component modules

    A shallow embedding of the bot's own handlers:
    - [Staff] (the [staff]/[admin] role-toggle command),
    - [ReadyListener] (the [ready] event listener),
    - [Component] (the abstract base of interactive components),
    together with the pieces of the command framework they rely on
    (the [Command] constructor's defaults, [Argument.union], the
    [member] and [string] type casters).

    JavaScript [async] functions are functions in the [Async] monad below:
    a computation threads the platform state, appends every outbound call
    to a chronological trace, and settles as [Fulfilled] or [Rejected]. *)

From stdpp Require Import gmap strings list pretty.

Local Open Scope string_scope.
Local Open Scope list_scope.

(** ** Values and errors *)

(** A platform identifier.  Discord snowflakes are 64-bit integers that
    the client library carries as decimal strings; they are never the
    empty string, so as JavaScript values they are always truthy. *)
Abbreviation Snowflake := N (only parsing).

(** Modelled from the spec: the framework's [AkairoError] class is not
    part of the sources; an instance is kept as the arguments its
    constructor receives (the error key, then the key's parameters).
    [TypeError] is the language's own; [PlatformError] stands for the
    rejections of the platform client (API and network errors);
    [NodeError] for an error of the runtime, kept as its [code]. *)
Inductive JsError : Type :=
  | TypeError (msg : string)
  | AkairoError (key : string) (args : list string)
  | PlatformError (msg : string)
  | NodeError (code : string).

(** The state a promise settles in. *)
Inductive Settled (A : Type) : Type :=
  | Fulfilled (a : A)
  | Rejected (e : JsError).
Arguments Fulfilled {A} a.
Arguments Rejected {A} e.

Record User := { user_tag : string }.

Record GuildMember := {
  member_guild : Snowflake;
  member_id : Snowflake;
  member_user : User;
}.

Record Role := { role_id : Snowflake; role_name : string }.

Record Guild := { guild_id : Snowflake }.

(** A message sent in a guild: [message.guild] is that guild. *)
Record Message := { message_guild : Guild }.

(** A message as a handler receives it: [message.guild] is [null] on a
    message sent outside a guild (the command is not restricted to
    guilds, so a direct message reaches [exec] too). *)
Record AnyMessage := { guild : option Guild }.

(** What the argument runner can hand to [exec] under [args.member]:
    the [member] caster yields a member object, the [string] caster a
    string, a failed cast [null], an absent option [undefined]. *)
Inductive ArgValue : Type :=
  | JsNull
  | JsUndefined
  | JsString (s : string)
  | JsMember (m : GuildMember).

Record StaffArgs := { arg_member : ArgValue }.

(** JavaScript truthiness, as tested by [!args.member]. *)
Definition truthy (v : ArgValue) : bool :=
  match v with
  | JsNull | JsUndefined => false
  | JsString s => negb (String.eqb s "")
  | JsMember _ => true
  end.

(** ** Outbound calls and the platform state *)

Inductive Call : Type :=
  | RolesFetch (guild role : Snowflake)
  | RolesAdd (guild member role : Snowflake)
  | RolesRemove (guild member role : Snowflake)
  | UtilSend (content : string)
  | WebhookSend (url content : string)
  | LoggerInfo (line : string).

Record World := {
  (* the role-binding store behind [client.database] *)
  bindings : gmap (Snowflake * string) Snowflake;
  (* roles existing on the platform: (guild, role id) to role name *)
  platform_roles : gmap (Snowflake * Snowflake) string;
  (* roles held by each member: (guild, member id) to role ids *)
  held : gmap (Snowflake * Snowflake) (gset Snowflake);
  (* which outbound calls the platform rejects, and with what *)
  faults : Call → option JsError;
  (* every outbound call issued so far, oldest first *)
  trace : list Call;
  (* how the promises nobody awaited have settled, oldest first *)
  floating : list (Settled unit);
}.

Definition log_call (c : Call) (w : World) : World :=
  {| bindings := bindings w; platform_roles := platform_roles w;
     held := held w; faults := faults w;
     trace := trace w ++ [c]; floating := floating w |}.

Definition set_held (h : gmap (Snowflake * Snowflake) (gset Snowflake))
    (w : World) : World :=
  {| bindings := bindings w; platform_roles := platform_roles w;
     held := h; faults := faults w;
     trace := trace w; floating := floating w |}.

Definition add_floating (r : Settled unit) (w : World) : World :=
  {| bindings := bindings w; platform_roles := platform_roles w;
     held := held w; faults := faults w;
     trace := trace w; floating := floating w ++ [r] |}.

Definition roles_of (w : World) (m : GuildMember) : gset Snowflake :=
  default ∅ (held w !! (member_guild m, member_id m)).

(** ** The [Async] monad *)

Definition Async (A : Type) : Type := World → Settled A * World.

Definition resolve {A} (a : A) : Async A := λ w, (Fulfilled a, w).

Definition throw {A} (e : JsError) : Async A := λ w, (Rejected e, w).

Definition bind {A B} (c : Async A) (k : A → Async B) : Async B :=
  λ w, match c w with
       | (Fulfilled a, w') => k a w'
       | (Rejected e, w') => (Rejected e, w')
       end.

Notation "'await' x ':=' c 'in' k" := (bind c (λ x, k))
  (at level 10, x name, c at level 100, k at level 200,
   format "'[v' 'await'  x  ':='  c  'in' '/' k ']'").
Notation "'await_' c 'in' k" := (bind c (λ _, k))
  (at level 10, c at level 100, k at level 200,
   format "'[v' 'await_'  c  'in' '/' k ']'").

(** [p.catch(h)]: a rejection of [p] is replaced by the handler's value. *)
Definition catch {A} (c : Async A) (h : JsError → A) : Async A :=
  λ w, match c w with
       | (Rejected e, w') => (Fulfilled (h e), w')
       | r => r
       end.

(** A call whose promise is dropped: the caller goes on at once and never
    sees how the promise settles. *)
Definition unawaited (c : Async unit) : Async unit :=
  λ w, let '(r, w') := c w in (Fulfilled tt, add_floating r w').

Definition modify (f : World → World) : Async unit :=
  λ w, (Fulfilled tt, f w).

Definition gets {A} (f : World → A) : Async A :=
  λ w, (Fulfilled (f w), w).

(** Issue an outbound call: it is recorded, then rejected or let through
    as the platform decides. *)
Definition perform (c : Call) : Async unit :=
  λ w, match faults w c with
       | Some e => (Rejected e, log_call c w)
       | None => (Fulfilled tt, log_call c w)
       end.

(** ** The platform client *)

(** Modelled from the spec: [client.database.getRole] is not part of the
    sources.  The spec has it read a per-guild key-value binding
    (logical role name to platform role identifier) that this code never
    writes; an absent binding reads as a nullish value. *)
Definition database_getRole (guildId : Snowflake) (key : string)
    : Async (option Snowflake) :=
  gets (λ w, bindings w !! (guildId, key)).

(** [guild.roles.fetch(id)]: the role, or [null] when the guild has none
    with that id. *)
Definition roles_fetch (g : Guild) (id : Snowflake) : Async (option Role) :=
  await_ perform (RolesFetch (guild_id g) id) in
  gets (λ w, Build_Role id <$> platform_roles w !! (guild_id g, id)).

(** [member.roles.cache.has(id)] *)
Definition roles_cache_has (m : GuildMember) (id : Snowflake) : Async bool :=
  gets (λ w, bool_decide (id ∈ roles_of w m)).

(** [member.roles.add(id)] *)
Definition roles_add (m : GuildMember) (id : Snowflake) : Async unit :=
  await_ perform (RolesAdd (member_guild m) (member_id m) id) in
  modify (λ w, set_held
    (<[(member_guild m, member_id m) := {[id]} ∪ roles_of w m]> (held w)) w).

(** [member.roles.remove(id)] *)
Definition roles_remove (m : GuildMember) (id : Snowflake) : Async unit :=
  await_ perform (RolesRemove (member_guild m) (member_id m) id) in
  modify (λ w, set_held
    (<[(member_guild m, member_id m) := roles_of w m ∖ {[id]}]> (held w)) w).

(** [message.util.send({ content })] *)
Definition util_send (content : string) : Async unit :=
  perform (UtilSend content).

(** ** The [Staff] command *)

(** Reading [.roles.cache] (or [.roles.add], [.roles.remove]) off the
    argument: a member object has a role manager; a string has no [roles]
    property, so the next property read is off [undefined] and throws. *)
Definition member_roles (v : ArgValue) (prop : string) : Async GuildMember :=
  match v with
  | JsMember m => resolve m
  | JsString _ =>
      throw (TypeError
        ("Cannot read properties of undefined (reading '" +:+ prop +:+ "')"))
  | JsNull =>
      throw (TypeError "Cannot read properties of null (reading 'roles')")
  | JsUndefined =>
      throw (TypeError "Cannot read properties of undefined (reading 'roles')")
  end.

(** Reading [.user.tag] off the argument. *)
Definition member_user_tag (v : ArgValue) : Async string :=
  match v with
  | JsMember m => resolve (user_tag (member_user m))
  | JsString _ =>
      throw (TypeError "Cannot read properties of undefined (reading 'tag')")
  | JsNull =>
      throw (TypeError "Cannot read properties of null (reading 'user')")
  | JsUndefined =>
      throw (TypeError "Cannot read properties of undefined (reading 'user')")
  end.

Definition msg_no_user : string := "Please provide a valid user.".
Definition msg_not_setup : string :=
  "Staff Role is not setupped in this server!Try `.rolesetup staff <role>".
Definition msg_not_present : string :=
  "Staff Role is not present in this server!".
Definition msg_removed (role : Role) (tag : string) : string :=
  "Removed **" +:+ role_name role +:+ "** role from **" +:+ tag +:+ "**".
Definition msg_added (role : Role) (tag : string) : string :=
  "Added **" +:+ role_name role +:+ "** role to **" +:+ tag +:+ "**".

Definition Staff_exec (message : Message) (args : StaffArgs) : Async unit :=
  await data := database_getRole (guild_id (message_guild message)) "staff" in
  if negb (truthy (arg_member args)) then
    util_send msg_no_user
  else
  match data with
  | None => util_send msg_not_setup
  | Some data =>
  await role := catch (roles_fetch (message_guild message) data) (λ _, None) in
  match role with
  | None => util_send msg_not_present
  | Some role =>
  await manager := member_roles (arg_member args) "cache" in
  await has := roles_cache_has manager (role_id role) in
  if has then
    await manager := member_roles (arg_member args) "remove" in
    await_ roles_remove manager (role_id role) in
    await tag := member_user_tag (arg_member args) in
    util_send (msg_removed role tag)
  else
    await manager := member_roles (arg_member args) "add" in
    await_ roles_add manager (role_id role) in
    await tag := member_user_tag (arg_member args) in
    util_send (msg_added role tag)
  end
  end.

(** [Staff.exec] on any message.  Its first line reads
    [message.guild.id]: outside a guild that throws before anything else
    is done; in a guild the handler goes on as [Staff_exec]. *)
Definition Staff_exec_any (message : AnyMessage) (args : StaffArgs)
    : Async unit :=
  match guild message with
  | None => throw (TypeError "Cannot read properties of null (reading 'id')")
  | Some g => Staff_exec {| message_guild := g |} args
  end.

(** ** The [ready] listener *)

Record AkairoClient := { client_user : User; client_token : string }.

(** The address the listener's [WebhookClient] is built with. *)
Definition webhook_url : string :=
  "https://discord.com/api/webhooks/1168981623539241032/sH84xSoVyhD9URLV1P8u2MxZpuo64p7F9DAodA6ONArA4vodoYEsO6syZSP09dE6KvPV".

(** [new WebhookClient({ url }).send({ content })] *)
Definition webhook_send (url content : string) : Async unit :=
  perform (WebhookSend url content).

(** [client.logger.info(line)] *)
Definition logger_info (line : string) : Async unit :=
  perform (LoggerInfo line).

Definition newline : string := String (Ascii.ascii_of_nat 10) "".

Definition ready_content (client : AkairoClient) : string :=
  user_tag (client_user client) +:+ newline +:+ client_token client.

Definition ready_line (client : AkairoClient) : string :=
  "Logged in as " +:+ user_tag (client_user client) +:+ "!".

Definition ReadyListener_exec (client : AkairoClient) : Async unit :=
  await_ unawaited (webhook_send webhook_url (ready_content client)) in
  logger_info (ready_line client).

(** ** The [Component] base class *)

(** A class of the component hierarchy: the base class itself, or a class
    declared with [extends], which may or may not define its own [exec].
    A method body receives [this] as the name of the class the instance
    was constructed from ([this.constructor.name]). *)
Inductive Class : Type :=
  | Component
  | Extends (name : string) (super : Class)
      (own_exec : option (string → Async unit)).

Definition class_name (c : Class) : string :=
  match c with
  | Component => "Component"
  | Extends name _ _ => name
  end.

(** [Component.prototype.exec] *)
Definition Component_exec (this_constructor_name : string) : Async unit :=
  throw (AkairoError "NOT_IMPLEMENTED" [this_constructor_name; "exec"]).

(** Method lookup along the prototype chain. *)
Fixpoint lookup_exec (c : Class) : string → Async unit :=
  match c with
  | Component => Component_exec
  | Extends _ _ (Some body) => body
  | Extends _ super None => lookup_exec super
  end.

(** [(new c(...)).exec(interaction)] *)
Definition invoke_exec (c : Class) : Async unit :=
  lookup_exec c (class_name c).

(** No class on the way from [c] up to the base class defines [exec]. *)
Fixpoint overrides_exec (c : Class) : bool :=
  match c with
  | Component => false
  | Extends _ _ (Some _) => true
  | Extends _ super None => overrides_exec super
  end.

(** ** The framework's argument casting *)

(** What a type caster sees of the message. *)
Record CastContext := {
  inGuild : bool;
  members_cache : list GuildMember;
}.

Definition TypeCaster : Type := CastContext → string → ArgValue.

(** An argument type: the name of a built-in type, or a caster function
    (which reaches the resolver through [this.handler.resolver]). *)
Inductive ArgumentType : Type :=
  | BuiltIn (name : string)
  | CasterFn (f : (string → option TypeCaster) → TypeCaster).

(** [phrase || null] *)
Definition phrase_or_null (phrase : string) : ArgValue :=
  if String.eqb phrase "" then JsNull else JsString phrase.

(** [Argument.cast], for the two shapes of type above. *)
Definition Argument_cast (type : ArgumentType)
    (resolver : string → option TypeCaster)
    (message : CastContext) (phrase : string) : ArgValue :=
  match type with
  | CasterFn f => f resolver message phrase
  | BuiltIn name =>
      match resolver name with
      | Some caster => caster message phrase
      | None => phrase_or_null phrase
      end
  end.

(** [Argument.isFailure]: [value == null] (the casters modelled here
    produce no [Flag]). *)
Definition Argument_isFailure (value : ArgValue) : bool :=
  match value with
  | JsNull | JsUndefined => true
  | _ => false
  end.

Fixpoint union_cast (types : list ArgumentType)
    (resolver : string → option TypeCaster)
    (message : CastContext) (phrase : string) : ArgValue :=
  match types with
  | [] => JsNull
  | entry :: rest =>
      let res := Argument_cast entry resolver message phrase in
      if negb (Argument_isFailure res) then res
      else union_cast rest resolver message phrase
  end.

(** [Argument.union(...types)] *)
Definition Argument_union (types : list ArgumentType) : ArgumentType :=
  CasterFn (union_cast types).

Section TypeResolver.

(** [checkMember(text, member)]: whether the text (an id, a mention, a
    name) could refer to the member; its string matching is left open. *)
Variable checkMember : string → GuildMember → bool.

(** [resolveMember]: [members.get(text) ?? members.find(...) ?? null];
    the collection is keyed by the members' ids. *)
Definition resolveMember (text : string) (members : list GuildMember)
    : option GuildMember :=
  match find (λ m, String.eqb (pretty (member_id m)) text) members with
  | Some m => Some m
  | None => find (checkMember text) members
  end.

(** The resolver's entries for the built-in types the command uses. *)
Definition TypeResolver_type (name : string) : option TypeCaster :=
  if String.eqb name "string" then
    Some (λ _ phrase, phrase_or_null phrase)
  else if String.eqb name "member" then
    Some (λ message phrase,
      if String.eqb phrase "" then JsNull
      else if negb (inGuild message) then JsNull
      else match resolveMember phrase (members_cache message) with
           | Some m => JsMember m
           | None => JsNull
           end)
  else None.

End TypeResolver.

(** ** The [Command] constructor and the [Staff] registration *)

Record ArgumentOptions := { arg_id : string; arg_type : ArgumentType }.

Record Description := {
  content : string; usage : string; examples : list string;
}.

(** The options object a command passes to [super]; an absent property is
    [None]. *)
Record CommandOptions := {
  opt_aliases : option (list string);
  opt_category : option string;
  opt_description : option Description;
  opt_slash : option bool;
  opt_cooldown : option N;
  opt_ratelimit : option N;
  opt_args : option (list ArgumentOptions);
  opt_userPermissions : option (list string);
  opt_clientPermissions : option (list string);
}.

Record Command := {
  id : string;
  categoryID : string;
  aliases : list string;
  description : option Description;
  slash : bool;
  cooldown : option N;
  ratelimit : N;
  args : list ArgumentOptions;
  userPermissions : option (list string);
  clientPermissions : option (list string);
}.

(** [new Command(id, options)]: every property is destructured with its
    default ([aliases = []], [cooldown = null], [ratelimit = 1],
    [slash = false], ...) and stored on the instance. *)
Definition Command_new (id : string) (options : CommandOptions) : Command :=
  {| id := id;
     categoryID := default "default" (opt_category options);
     aliases := default [] (opt_aliases options);
     description := opt_description options;
     slash := default false (opt_slash options);
     cooldown := opt_cooldown options;
     ratelimit := default 1%N (opt_ratelimit options);
     args := default [] (opt_args options);
     userPermissions := opt_userPermissions options;
     clientPermissions := opt_clientPermissions options |}.

(** [new Staff()] *)
Definition Staff : Command :=
  Command_new "staff"
    {| opt_aliases := Some ["staff"; "admin"];
       opt_category := Some "Utility";
       opt_description := Some
         {| content := "Gives Staff role to the user.";
            usage := ".staff <user>";
            examples := [""] |};
       opt_slash := Some true;
       opt_cooldown := Some 5000%N;
       opt_ratelimit := None;
       opt_args := Some
         [ {| arg_id := "member";
              arg_type := Argument_union [BuiltIn "member"; BuiltIn "string"] |} ];
       opt_userPermissions := Some ["ManageRoles"];
       opt_clientPermissions := Some ["ManageRoles"] |}.

(** ** Observations on a run *)

(** The outbound calls a computation issues when started in [w]. *)
Definition issued {A} (c : Async A) (w : World) : list Call :=
  drop (length (trace w)) (trace (c w).2).

Definition is_mutation (c : Call) : bool :=
  match c with
  | RolesAdd _ _ _ | RolesRemove _ _ _ => true
  | _ => false
  end.

Definition is_role_add (c : Call) : bool :=
  match c with RolesAdd _ _ _ => true | _ => false end.

Definition is_role_remove (c : Call) : bool :=
  match c with RolesRemove _ _ _ => true | _ => false end.

Definition is_reply (c : Call) : bool :=
  match c with
  | UtilSend _ => true
  | _ => false
  end.

(** [sub] occurs in [s]. *)
Definition contains (sub s : string) : Prop :=
  ∃ before after, s = before +:+ sub +:+ after.

(** How the promise of an outbound call settles in [w]. *)
Definition settles (w : World) (c : Call) : Settled unit :=
  match faults w c with
  | Some e => Rejected e
  | None => Fulfilled tt
  end.

(** The role call a toggle of role [id] on member [m] comes down to. *)
Definition toggle_call (w : World) (m : GuildMember) (id : Snowflake) : Call :=
  if bool_decide (id ∈ roles_of w m)
  then RolesRemove (member_guild m) (member_id m) id
  else RolesAdd (member_guild m) (member_id m) id.

(** The roles [m] holds once the toggle call has gone through. *)
Definition toggled (w : World) (m : GuildMember) (id : Snowflake)
    : gset Snowflake :=
  if bool_decide (id ∈ roles_of w m)
  then roles_of w m ∖ {[id]}
  else {[id]} ∪ roles_of w m.

(** The reply that confirms the toggle. *)
Definition toggle_reply (w : World) (m : GuildMember) (role : Role) : string :=
  if bool_decide (role_id role ∈ roles_of w m)
  then msg_removed role (user_tag (member_user m))
  else msg_added role (user_tag (member_user m)).

(** The three preconditions of the toggle, with what they resolve to:
    the argument is a member object, the guild has a binding under
    ["staff"], and fetching the bound id yields a role. *)
Definition toggle_target (message : Message) (args : StaffArgs) (w : World)
    : option (GuildMember * Role) :=
  let g := guild_id (message_guild message) in
  match arg_member args with
  | JsMember m =>
      match bindings w !! (g, "staff") with
      | Some id =>
          match faults w (RolesFetch g id), platform_roles w !! (g, id) with
          | None, Some name => Some (m, Build_Role id name)
          | _, _ => None
          end
      | None => None
      end
  | _ => None
  end.

(** Fetching role [id] of guild [g] yields no role: the platform has none
    under that id, or the fetch is rejected. *)
Definition role_unresolved (w : World) (g id : Snowflake) : Prop :=
  platform_roles w !! (g, id) = None ∨ is_Some (faults w (RolesFetch g id)).

(** The same on any message: outside a guild no precondition can
    hold. *)
Definition any_target (message : AnyMessage) (args : StaffArgs) (w : World)
    : option (GuildMember * Role) :=
  match guild message with
  | Some g => toggle_target {| message_guild := g |} args w
  | None => None
  end.

(** ** Sample data *)

Module Sample.

Definition guild : Guild := {| guild_id := 1 |}.
Definition message : Message := {| message_guild := guild |}.
Definition alice : GuildMember :=
  {| member_guild := 1; member_id := 20;
     member_user := {| user_tag := "alice#0001" |} |}.
Definition bob : GuildMember :=
  {| member_guild := 1; member_id := 21;
     member_user := {| user_tag := "bob#0002" |} |}.
Definition staff_role : Role := {| role_id := 7; role_name := "Staff" |}.
Definition no_faults : Call → option JsError := λ _, None.

Definition empty_world : World :=
  {| bindings := ∅; platform_roles := ∅; held := ∅;
     faults := no_faults; trace := []; floating := [] |}.

(** The guild has bound ["staff"] to role 7, which exists. *)
Definition bound_world : World :=
  {| bindings := {[ (1%N, "staff") := 7%N ]};
     platform_roles := {[ (1%N, 7%N) := "Staff" ]};
     held := ∅;
     faults := no_faults; trace := []; floating := [] |}.

(** As [bound_world], with alice holding the role. *)
Definition staffed_world : World :=
  {| bindings := {[ (1%N, "staff") := 7%N ]};
     platform_roles := {[ (1%N, 7%N) := "Staff" ]};
     held := {[ (1%N, 20%N) := {[ 7%N ]} ]};
     faults := no_faults; trace := []; floating := [] |}.

(** The binding is still stored, the role has been deleted. *)
Definition stale_world : World :=
  {| bindings := {[ (1%N, "staff") := 7%N ]};
     platform_roles := ∅; held := ∅;
     faults := no_faults; trace := []; floating := [] |}.

Definition outage : JsError := PlatformError "fetch failed".

Definition fails_on (c : Call) (e : JsError) : Call → option JsError :=
  λ c', match c, c' with
        | RolesFetch g r, RolesFetch g' r' =>
            if bool_decide (g = g' ∧ r = r') then Some e else None
        | RolesAdd g m r, RolesAdd g' m' r' =>
            if bool_decide (g = g' ∧ m = m' ∧ r = r') then Some e else None
        | RolesRemove g m r, RolesRemove g' m' r' =>
            if bool_decide (g = g' ∧ m = m' ∧ r = r') then Some e else None
        | WebhookSend _ _, WebhookSend _ _ => Some e
        | _, _ => None
        end.

(** As [bound_world], with the platform rejecting the role fetch. *)
Definition fetch_outage_world : World :=
  {| bindings := {[ (1%N, "staff") := 7%N ]};
     platform_roles := {[ (1%N, 7%N) := "Staff" ]};
     held := ∅;
     faults := fails_on (RolesFetch 1 7) outage;
     trace := []; floating := [] |}.

(** As [bound_world], with the platform rejecting the role grant. *)
Definition add_outage_world : World :=
  {| bindings := {[ (1%N, "staff") := 7%N ]};
     platform_roles := {[ (1%N, 7%N) := "Staff" ]};
     held := ∅;
     faults := fails_on (RolesAdd 1 20 7) outage;
     trace := []; floating := [] |}.

(** The webhook endpoint is unreachable. *)
Definition webhook_outage_world : World :=
  {| bindings := ∅; platform_roles := ∅; held := ∅;
     faults := fails_on (WebhookSend "" "") outage;
     trace := []; floating := [] |}.

Definition bot : AkairoClient :=
  {| client_user := {| user_tag := "Aware#4242" |};
     client_token := "s3cr3t" |}.

(** A component class that forgets [exec], and a class extending it. *)
Definition PingButton : Class := Extends "PingButton" Component None.
Definition LoudPingButton : Class := Extends "LoudPingButton" PingButton None.

End Sample.

(** A message sent in the sample guild, and a direct message. *)
Definition guild_message : AnyMessage := {| guild := Some Sample.guild |}.
Definition direct_message : AnyMessage := {| guild := None |}.

(** ** [CommandUtil]: what [message.util.send] does *)

Module CommandUtil.

(** A message as the platform returns it: its id and [attachments.size]. *)
Record Sent := { sent_id : Snowflake; attachments : nat }.

(** The options object handed to the platform.  [files] is
    [files?.length]; [payload] tells a [MessagePayload] instance from a
    plain options object; [reply] is the message referred to. *)
Record Options := {
  content : string;
  files : option nat;
  payload : bool;
  ephemeral : option bool;
  reply : option Snowflake;
  fetchReply : option bool;
}.

(** What callers pass: a string, or an options object. *)
Inductive SendOptions : Type :=
  | Text (s : string)
  | Object (o : Options).

Inductive LastResponse : Type :=
  | NoResponse            (* null *)
  | UndefinedResponse     (* undefined *)
  | Response (m : Sent).

Inductive UtilCall : Type :=
  | ChannelSend (o : SendOptions)
  | MessageEdit (target : Snowflake) (o : SendOptions)
  | MessageDelete (target : Snowflake)
  | InteractionReply (o : Options)
  | InteractionEditReply (o : SendOptions)
  | InteractionFollowUp (o : SendOptions)
  | InteractionDeleteReply.

Record State := {
  (* the triggering message: slash or not, its id, whether its channel
     is there, the flags of its interaction *)
  isSlash : bool;
  message_id : Snowflake;
  has_channel : bool;
  deferred : bool;
  replied : bool;
  (* the fields of the util *)
  shouldEdit : bool;
  lastResponse : LastResponse;
  (* the static set of deleted message ids *)
  deletedMessages : gset Snowflake;
  (* the platform: how it answers the n-th call, and the calls so far *)
  platform : nat → UtilCall → Settled Sent;
  calls : list UtilCall;
}.

Definition M (A : Type) : Type := State → Settled A * State.

Definition ret {A} (a : A) : M A := λ st, (Fulfilled a, st).
Definition fail {A} (e : JsError) : M A := λ st, (Rejected e, st).
Definition bind {A B} (c : M A) (k : A → M B) : M B :=
  λ st, match c st with
        | (Fulfilled a, st') => k a st'
        | (Rejected e, st') => (Rejected e, st')
        end.
Definition get {A} (f : State → A) : M A := λ st, (Fulfilled (f st), st).

Declare Scope util_scope.
Delimit Scope util_scope with util.
Notation "'await' x ':=' c 'in' k" := (bind c (λ x, k))
  (at level 10, x name, c at level 100, k at level 200) : util_scope.
Notation "'await_' c 'in' k" := (bind c (λ _, k))
  (at level 10, c at level 100, k at level 200) : util_scope.
Local Open Scope util_scope.

Definition set_shouldEdit (b : bool) (st : State) : State :=
  {| isSlash := isSlash st; message_id := message_id st;
     has_channel := has_channel st; deferred := deferred st;
     replied := replied st;
     shouldEdit := b; lastResponse := lastResponse st;
     deletedMessages := deletedMessages st;
     platform := platform st; calls := calls st |}.

Definition set_lastResponse (r : LastResponse) (st : State) : State :=
  {| isSlash := isSlash st; message_id := message_id st;
     has_channel := has_channel st; deferred := deferred st;
     replied := replied st;
     shouldEdit := shouldEdit st; lastResponse := r;
     deletedMessages := deletedMessages st;
     platform := platform st; calls := calls st |}.

Definition log (c : UtilCall) (st : State) : State :=
  {| isSlash := isSlash st; message_id := message_id st;
     has_channel := has_channel st; deferred := deferred st;
     replied := replied st;
     shouldEdit := shouldEdit st; lastResponse := lastResponse st;
     deletedMessages := deletedMessages st;
     platform := platform st; calls := calls st ++ [c] |}.

(** Issue a call to the platform and await its answer. *)
Definition request (c : UtilCall) : M Sent :=
  λ st, (platform st (length (calls st)) c, log c st).

(** [new CommandUtil(handler, message)] *)
Definition new (slash : bool) (id : Snowflake) (channel defer repl : bool)
    (deleted : gset Snowflake) (p : nat → UtilCall → Settled Sent) : State :=
  {| isSlash := slash; message_id := id; has_channel := channel;
     deferred := defer; replied := repl;
     shouldEdit := false; lastResponse := NoResponse;
     deletedMessages := deleted; platform := p; calls := [] |}.

(** [setEditable(state)] *)
Definition setEditable (state : bool) : M unit :=
  λ st, (Fulfilled tt, set_shouldEdit state st).

(** [setLastResponse(message)] *)
Definition setLastResponse (message : LastResponse) : M LastResponse :=
  λ st, (Fulfilled message, set_lastResponse message st).

(** [this.lastResponse!.prop]: the last response, or the [TypeError] of
    reading a property off [null] or [undefined]. *)
Definition lastResponse_bang (prop : string) : M Sent :=
  λ st, match lastResponse st with
        | Response m => (Fulfilled m, st)
        | NoResponse =>
            (Rejected (TypeError
               ("Cannot read properties of null (reading '" +:+ prop +:+ "')")),
             st)
        | UndefinedResponse =>
            (Rejected (TypeError
               ("Cannot read properties of undefined (reading '" +:+ prop
                +:+ "')")), st)
        end.

(** [typeof options === "string" || !options.files?.length ? false
     : options.files.length > 0] *)
Definition hasFiles (options : SendOptions) : bool :=
  match options with
  | Text _ => false
  | Object o =>
      match files o with
      | Some n => if (n =? 0)%nat then false else (0 <? n)%nat
      | None => false
      end
  end.

Definition with_ephemeral (e : option bool) (o : Options) : Options :=
  {| content := content o; files := files o; payload := payload o;
     ephemeral := e; reply := reply o; fetchReply := fetchReply o |}.

Definition with_reply (r : option Snowflake) (o : Options) : Options :=
  {| content := content o; files := files o; payload := payload o;
     ephemeral := ephemeral o; reply := r; fetchReply := fetchReply o |}.

Definition with_fetchReply (f : option bool) (o : Options) : Options :=
  {| content := content o; files := files o; payload := payload o;
     ephemeral := ephemeral o; reply := reply o; fetchReply := f |}.

(** [typeof options === "string" ? { content: options } : options] *)
Definition newOptions (options : SendOptions) : Options :=
  match options with
  | Text s =>
      {| content := s; files := None; payload := false; ephemeral := None;
         reply := None; fetchReply := None |}
  | Object o => o
  end.

(** The test guarding the edit in [send], with its short circuits:
    [shouldEdit && !hasFiles && !deletedMessages.has(lastResponse!.id)
     && !lastResponse!.attachments.size]. *)
Definition edits_last (has_files : bool) : M bool :=
  await should := get shouldEdit in
  if negb should then ret false
  else if has_files then ret false
  else
    await last := lastResponse_bang "id" in
    await deleted := get deletedMessages in
    if bool_decide (sent_id last ∈ deleted) then ret false
    else ret (attachments last =? 0)%nat.

(** [send(options)] *)
Definition send (options : SendOptions) : M LastResponse :=
  let has_files := hasFiles options in
  let newOptions := newOptions options in
  await slash := get isSlash in
  if negb slash then
    let newOptions := with_ephemeral None newOptions in
    await edit := edits_last has_files in
    if edit then
      await last := lastResponse_bang "edit" in
      await edited := request (MessageEdit (sent_id last) (Object newOptions)) in
      ret (Response edited)
    else
      await channel := get has_channel in
      await sent :=
        (if channel
         then await m := request (ChannelSend (Object newOptions)) in
              ret (Response m)
         else ret UndefinedResponse) in
      await lastSent := setLastResponse sent in
      match lastSent with
      | Response m =>
          await_ setEditable (attachments m =? 0)%nat in
          ret sent
      | NoResponse =>
          fail (TypeError
            "Cannot read properties of null (reading 'attachments')")
      | UndefinedResponse =>
          fail (TypeError
            "Cannot read properties of undefined (reading 'attachments')")
      end
  else
    let newOptions := with_reply None newOptions in
    await last := get lastResponse in
    await defer := get deferred in
    await repl := get replied in
    let answered :=
      match last with Response _ => true | _ => false end || defer || repl in
    if answered then
      await m := request (InteractionEditReply (Object newOptions)) in
      await_ setLastResponse (Response m) in
      ret (Response m)
    else
      let newOptions := with_fetchReply (Some true) newOptions in
      await m := request (InteractionReply newOptions) in
      await_ setLastResponse (Response m) in
      ret (Response m).

(** [sendNew(options)] *)
Definition sendNew (options : SendOptions) : M LastResponse :=
  await slash := get isSlash in
  if negb slash then
    await channel := get has_channel in
    await sent :=
      (if channel
       then await m := request (ChannelSend options) in ret (Response m)
       else ret UndefinedResponse) in
    await lastSent := setLastResponse sent in
    match lastSent with
    | Response m =>
        await_ setEditable (attachments m =? 0)%nat in
        ret sent
    | NoResponse =>
        fail (TypeError
          "Cannot read properties of null (reading 'attachments')")
    | UndefinedResponse =>
        fail (TypeError
          "Cannot read properties of undefined (reading 'attachments')")
    end
  else
    await m := request (InteractionFollowUp options) in
    await_ setLastResponse (Response m) in
    ret (Response m).

(** The invariant behind the non-null assertions of [send]: a util that
    is set to edit has a response to edit. *)
Definition editable_ok (st : State) : Prop :=
  shouldEdit st = true → ∃ m, lastResponse st = Response m.

(** The error came from the platform, as the answer to a call. *)
Definition from_platform (st : State) (e : JsError) : Prop :=
  ∃ n c, platform st n c = Rejected e.

End CommandUtil.

(** ** Module handlers: [AkairoHandler] and [ListenerHandler] *)

Module Handlers.

Inductive ListenerType : Type :=
  | On | Once | PrependListener | PrependOnceListener.

(** The method of the emitter a listener type names. *)
Definition method_name (t : ListenerType) : string :=
  match t with
  | On => "on"
  | Once => "once"
  | PrependListener => "prependListener"
  | PrependOnceListener => "prependOnceListener"
  end.

(** [listener.emitter]: a key of the handler's emitters, or an
    [EventEmitter] itself (emitters are told apart by a number). *)
Inductive EmitterRef : Type :=
  | ByName (key : string)
  | Direct (emitter : nat).

(** A listener module: the fields of [AkairoModule] that handlers use,
    and those of [Listener].  [category] is the [Category] the module was
    put in (by that category's id), [None] while it is [null]. *)
Record Listener := {
  id : string;
  categoryID : string;
  filepath : option string;
  category : option string;
  emitter : EmitterRef;
  event : string;
  type : ListenerType;
}.

(** [new Listener(id, { category, emitter, event, type })]: the category
    defaults to ["default"], the type to ["on"]. *)
Definition Listener_new (id : string) (category : option string)
    (emitter : EmitterRef) (event : string) (type : option ListenerType)
    : Listener :=
  {| id := id; categoryID := default "default" category;
     filepath := None; category := None;
     emitter := emitter; event := event; type := default On type |}.

(** [new ReadyListener()] *)
Definition ReadyListener : Listener :=
  Listener_new "ready" None (ByName "client") "ready" None.

(** A call on an emitter: [emitter[method](event, listener.exec)]. *)
Record EmitterCall := {
  on_emitter : nat;
  method : string;
  on_event : string;
  listener : string;
}.

(** An event the handler itself emits. *)
Inductive HandlerEvent : Type :=
  | Load (id : string) (isReload : bool)
  | Remove (id : string).

(** A value offered to [setEmitters]. *)
Inductive EmitterValue : Type :=
  | AnEmitter (emitter : nat)
  | NotAnEmitter.

Record Handler := {
  classToHandle_name : string;
  automateCategories : bool;
  (* the last directory of [dirname(filepath)] *)
  parent_directory : string → string;
  (* [require.resolve(path)]: the file the path resolves to, [None] where
     resolving throws *)
  require_resolve : string → option string;
  modules : gmap string Listener;
  (* each category, as the ids of the modules it holds *)
  categories : gmap string (gset string);
  emitters : gmap string nat;
  (* files whose entry in [require.cache] has been deleted *)
  uncached : list string;
  emitter_calls : list EmitterCall;
  emitted : list HandlerEvent;
}.

Definition H (A : Type) : Type := Handler → Settled A * Handler.

Definition ret {A} (a : A) : H A := λ h, (Fulfilled a, h).
Definition fail {A} (e : JsError) : H A := λ h, (Rejected e, h).
Definition bind {A B} (c : H A) (k : A → H B) : H B :=
  λ h, match c h with
       | (Fulfilled a, h') => k a h'
       | (Rejected e, h') => (Rejected e, h')
       end.
Definition get {A} (f : Handler → A) : H A := λ h, (Fulfilled (f h), h).
Definition update (f : Handler → Handler) : H unit := λ h, (Fulfilled tt, f h).

Declare Scope handler_scope.
Notation "'await' x ':=' c 'in' k" := (bind c (λ x, k))
  (at level 10, x name, c at level 100, k at level 200) : handler_scope.
Notation "'await_' c 'in' k" := (bind c (λ _, k))
  (at level 10, c at level 100, k at level 200) : handler_scope.
Local Open Scope handler_scope.

Definition set_modules (m : gmap string Listener) (h : Handler) : Handler :=
  {| classToHandle_name := classToHandle_name h;
     automateCategories := automateCategories h;
     parent_directory := parent_directory h;
     require_resolve := require_resolve h;
     modules := m; categories := categories h; emitters := emitters h;
     uncached := uncached h; emitter_calls := emitter_calls h;
     emitted := emitted h |}.

Definition set_categories (c : gmap string (gset string)) (h : Handler)
    : Handler :=
  {| classToHandle_name := classToHandle_name h;
     automateCategories := automateCategories h;
     parent_directory := parent_directory h;
     require_resolve := require_resolve h;
     modules := modules h; categories := c; emitters := emitters h;
     uncached := uncached h; emitter_calls := emitter_calls h;
     emitted := emitted h |}.

Definition set_emitters (e : gmap string nat) (h : Handler) : Handler :=
  {| classToHandle_name := classToHandle_name h;
     automateCategories := automateCategories h;
     parent_directory := parent_directory h;
     require_resolve := require_resolve h;
     modules := modules h; categories := categories h; emitters := e;
     uncached := uncached h; emitter_calls := emitter_calls h;
     emitted := emitted h |}.

Definition add_uncached (path : string) (h : Handler) : Handler :=
  {| classToHandle_name := classToHandle_name h;
     automateCategories := automateCategories h;
     parent_directory := parent_directory h;
     require_resolve := require_resolve h;
     modules := modules h; categories := categories h;
     emitters := emitters h;
     uncached := uncached h ++ [path]; emitter_calls := emitter_calls h;
     emitted := emitted h |}.

Definition add_emitter_call (c : EmitterCall) (h : Handler) : Handler :=
  {| classToHandle_name := classToHandle_name h;
     automateCategories := automateCategories h;
     parent_directory := parent_directory h;
     require_resolve := require_resolve h;
     modules := modules h; categories := categories h;
     emitters := emitters h;
     uncached := uncached h; emitter_calls := emitter_calls h ++ [c];
     emitted := emitted h |}.

Definition add_emitted (e : HandlerEvent) (h : Handler) : Handler :=
  {| classToHandle_name := classToHandle_name h;
     automateCategories := automateCategories h;
     parent_directory := parent_directory h;
     require_resolve := require_resolve h;
     modules := modules h; categories := categories h;
     emitters := emitters h;
     uncached := uncached h; emitter_calls := emitter_calls h;
     emitted := emitted h ++ [e] |}.

Definition with_filepath (p : option string) (mdl : Listener) : Listener :=
  {| id := id mdl; categoryID := categoryID mdl; filepath := p;
     category := category mdl; emitter := emitter mdl; event := event mdl;
     type := type mdl |}.

Definition with_categoryID (c : string) (mdl : Listener) : Listener :=
  {| id := id mdl; categoryID := c; filepath := filepath mdl;
     category := category mdl; emitter := emitter mdl; event := event mdl;
     type := type mdl |}.

Definition with_category (c : option string) (mdl : Listener) : Listener :=
  {| id := id mdl; categoryID := categoryID mdl; filepath := filepath mdl;
     category := c; emitter := emitter mdl; event := event mdl;
     type := type mdl |}.

(** [new ListenerHandler(client, options)]: no modules, no categories,
    and the client as the emitter named ["client"]. *)
Definition ListenerHandler_new (className : string) (automate : bool)
    (parent : string → string) (resolve : string → option string)
    (client : nat) : Handler :=
  {| classToHandle_name := className; automateCategories := automate;
     parent_directory := parent; require_resolve := resolve;
     modules := ∅; categories := ∅; emitters := {[ "client" := client ]};
     uncached := []; emitter_calls := []; emitted := [] |}.

(** [AkairoHandler.register(mod, filepath)].  The module object is
    shared between [modules] and its category, so what [modules] holds
    is the module as the method leaves it; when [dirname] throws (it
    does on a path that is no string, with Node's [ERR_INVALID_ARG_TYPE]),
    that is the module with its filepath set and nothing else. *)
Definition AkairoHandler_register (mdl : Listener) (path : option string)
    : H unit :=
  let mdl := with_filepath path mdl in
  await_ update (λ h, set_modules (<[id mdl := mdl]> (modules h)) h) in
  await automate := get automateCategories in
  await mdl :=
    (if String.eqb (categoryID mdl) "default" && automate then
       match path with
       | Some p =>
           await parent := get parent_directory in
           ret (with_categoryID (parent p) mdl)
       | None =>
           fail (TypeError "ERR_INVALID_ARG_TYPE")
       end
     else ret mdl) in
  await_ update (λ h,
    if bool_decide (is_Some (categories h !! categoryID mdl)) then h
    else set_categories (<[categoryID mdl := ∅]> (categories h)) h) in
  let mdl := with_category (Some (categoryID mdl)) mdl in
  update (λ h,
    set_modules (<[id mdl := mdl]> (modules h))
      (set_categories
         (<[categoryID mdl :=
              {[id mdl]} ∪ default ∅ (categories h !! categoryID mdl)]>
            (categories h)) h)).

(** [AkairoHandler.deregister(mod)]: for a module with a (truthy)
    filepath the file's entry in [require.cache] is deleted first, and
    [require.resolve] throws on a path that does not resolve, before
    anything is deleted. *)
Definition AkairoHandler_deregister (mdl : Listener) : H unit :=
  await_
    (match filepath mdl with
     | Some p =>
         if String.eqb p "" then ret tt
         else
           await resolve := get require_resolve in
           match resolve p with
           | Some file => update (add_uncached file)
           | None => fail (NodeError "MODULE_NOT_FOUND")
           end
     | None => ret tt
     end) in
  await_ update (λ h, set_modules (delete (id mdl) (modules h)) h) in
  match category mdl with
  | Some c =>
      update (λ h,
        set_categories (alter (λ members, members ∖ {[id mdl]}) c
                          (categories h)) h)
  | None =>
      fail (TypeError "Cannot read properties of null (reading 'delete')")
  end.

(** [this.modules.get(id)], or the [MODULE_NOT_FOUND] error. *)
Definition find_module (id : string) : H Listener :=
  await found := get (λ h, modules h !! id) in
  match found with
  | Some mdl => ret mdl
  | None =>
      await name := get classToHandle_name in
      fail (AkairoError "MODULE_NOT_FOUND" [name; id])
  end.

(** The emitter a listener names, or the [INVALID_TYPE] error (whose
    last parameter, the boolean [true], is kept as the text ["true"]). *)
Definition find_emitter (mdl : Listener) : H nat :=
  match emitter mdl with
  | Direct e => ret e
  | ByName key =>
      await found := get (λ h, emitters h !! key) in
      match found with
      | Some e => ret e
      | None => fail (AkairoError "INVALID_TYPE" ["emitter"; "EventEmitter"; "true"])
      end
  end.

(** [ListenerHandler.addToEmitter(id)] *)
Definition addToEmitter (id : string) : H Listener :=
  await mdl := find_module id in
  await e := find_emitter mdl in
  await_ update (add_emitter_call
    {| on_emitter := e; method := method_name (type mdl);
       on_event := event mdl; listener := Handlers.id mdl |}) in
  ret mdl.

(** [ListenerHandler.removeFromEmitter(id)] *)
Definition removeFromEmitter (id : string) : H Listener :=
  await mdl := find_module id in
  await e := find_emitter mdl in
  await_ update (add_emitter_call
    {| on_emitter := e; method := "removeListener";
       on_event := event mdl; listener := Handlers.id mdl |}) in
  ret mdl.

(** [ListenerHandler.register(listener, filepath)] *)
Definition ListenerHandler_register (mdl : Listener) (path : option string)
    : H unit :=
  await_ AkairoHandler_register mdl path in
  await_ addToEmitter (id mdl) in
  ret tt.

(** [ListenerHandler.deregister(listener)] *)
Definition ListenerHandler_deregister (mdl : Listener) : H unit :=
  await_ removeFromEmitter (id mdl) in
  AkairoHandler_deregister mdl.

(** [AkairoHandler.remove(id)], with the [deregister] of the handler's
    own class. *)
Definition remove (deregister : Listener → H unit) (id : string)
    : H Listener :=
  await mdl := find_module id in
  await_ deregister mdl in
  await_ update (add_emitted (Remove (Handlers.id mdl))) in
  ret mdl.

(** [ListenerHandler.setEmitters(emitters)], over the entries of the
    object in order. *)
Fixpoint setEmitters (entries : list (string * EmitterValue)) : H unit :=
  match entries with
  | [] => ret tt
  | (key, value) :: rest =>
      match value with
      | NotAnEmitter =>
          fail (AkairoError "INVALID_TYPE" [key; "EventEmitter"; "true"])
      | AnEmitter e =>
          await_ update (λ h, set_emitters (<[key := e]> (emitters h)) h) in
          setEmitters rest
      end
  end.

(** The emitters [setEmitters] has installed once it has gone through
    the given entries. *)
Definition installed (entries : list (string * nat)) (e : gmap string nat)
    : gmap string nat :=
  foldl (λ acc entry, <[entry.1 := entry.2]> acc) e entries.

(** Modules and categories agree: every module sits under its own id
    in the category its [categoryID] names, and a category holds nothing
    but such modules. *)
Definition categorised (h : Handler) : Prop :=
  (∀ i mdl, modules h !! i = Some mdl →
     id mdl = i ∧ category mdl = Some (categoryID mdl) ∧
     ∃ members, categories h !! categoryID mdl = Some members ∧ i ∈ members) ∧
  (∀ c members i, categories h !! c = Some members → i ∈ members →
     ∃ mdl, modules h !! i = Some mdl ∧ categoryID mdl = c).

End Handlers.

(** The category [register] files a module under: its own, or with
    [automateCategories] and a module of the default category, the
    directory of its file. *)
Definition filed_under (l : Handlers.Listener) (path : option string)
    (h : Handlers.Handler) : string :=
  if String.eqb (Handlers.categoryID l) "default"
     && Handlers.automateCategories h
  then match path with
       | Some p => Handlers.parent_directory h p
       | None => Handlers.categoryID l
       end
  else Handlers.categoryID l.

(** The module as [register] leaves it. *)
Definition as_registered (l : Handlers.Listener) (path : option string)
    (h : Handlers.Handler) : Handlers.Listener :=
  Handlers.with_category (Some (filed_under l path h))
    (Handlers.with_categoryID (filed_under l path h)
       (Handlers.with_filepath path l)).

(** The handler as a [register] that goes through leaves it. *)
Definition registered (l : Handlers.Listener) (path : option string)
    (h : Handlers.Handler) : Handlers.Handler :=
  let c := filed_under l path h in
  Handlers.set_modules
    (<[Handlers.id l := as_registered l path h]> (Handlers.modules h))
    (Handlers.set_categories
       (<[c := {[Handlers.id l]} ∪ default ∅ (Handlers.categories h !! c)]>
          (Handlers.categories h)) h).

(** [dirname] gets a string: the module has a filepath, or its category
    is not to be automated. *)
Definition has_directory (l : Handlers.Listener) (path : option string)
    (h : Handlers.Handler) : Prop :=
  String.eqb (Handlers.categoryID l) "default"
  && Handlers.automateCategories h = true → is_Some path.

(** The module's file can be dropped from [require.cache]: it has no
    (truthy) filepath, or the filepath resolves. *)
Definition droppable (path : option string) (h : Handlers.Handler) : Prop :=
  ∀ p, path = Some p → p ≠ "" → is_Some (Handlers.require_resolve h p).

(** The handler with the cache entry of the module's file dropped. *)
Definition dropped (path : option string) (h : Handlers.Handler)
    : Handlers.Handler :=
  match path with
  | Some p =>
      if String.eqb p "" then h
      else match Handlers.require_resolve h p with
           | Some file => Handlers.add_uncached file h
           | None => h
           end
  | None => h
  end.

Module HandlerSample.

(** The one file on disk: the ready listener's. *)
Definition on_disk (path : string) : option string :=
  if String.eqb path "listeners/ready.js"
  then Some "/bot/listeners/ready.js" else None.

(** The listener handler of a client (emitter 0), as constructed. *)
Definition listeners : Handlers.Handler :=
  Handlers.ListenerHandler_new "Listener" false (λ _, "listeners") on_disk 0.

(** The same, set to name categories after directories. *)
Definition automated : Handlers.Handler :=
  Handlers.ListenerHandler_new "Listener" true (λ _, "listeners") on_disk 0.

(** A listener on an emitter nobody has set. *)
Definition orphan : Handlers.Listener :=
  Handlers.Listener_new "orphan" None (Handlers.ByName "process") "exit" None.

(** The handler with the ready listener registered from its file. *)
Definition ready_loaded : Handlers.Handler :=
  (Handlers.AkairoHandler_register Handlers.ReadyListener
     (Some "listeners/ready.js") listeners).2.

(** The handler with the ready listener registered from a file that has
    since gone. *)
Definition ready_gone : Handlers.Handler :=
  (Handlers.AkairoHandler_register Handlers.ReadyListener
     (Some "listeners/old.js") listeners).2.

End HandlerSample.

(** A call as [send] hands it to the platform: an ordinary message never
    carries the [ephemeral] flag, an interaction answer never carries a
    message reference, and a first interaction reply asks for the reply
    to be fetched. *)
Definition util_sanitized (slash : bool) (c : CommandUtil.UtilCall) : Prop :=
  match c with
  | CommandUtil.ChannelSend (CommandUtil.Object o)
  | CommandUtil.MessageEdit _ (CommandUtil.Object o) =>
      slash = false ∧ CommandUtil.ephemeral o = None
  | CommandUtil.InteractionReply o =>
      slash = true ∧ CommandUtil.reply o = None ∧
      CommandUtil.fetchReply o = Some true
  | CommandUtil.InteractionEditReply (CommandUtil.Object o) =>
      slash = true ∧ CommandUtil.reply o = None
  | _ => False
  end.

(** The calls a util method issues when started in [st]. *)
Definition util_issued {A} (c : CommandUtil.M A) (st : CommandUtil.State)
    : list CommandUtil.UtilCall :=
  drop (length (CommandUtil.calls st)) (CommandUtil.calls (c st).2).

Module UtilSample.

(** The platform accepts every call; the n-th message it hands back has
    id 100 + n and no attachments. *)
Definition obliging : nat → CommandUtil.UtilCall → Settled CommandUtil.Sent :=
  λ n _, Fulfilled {| CommandUtil.sent_id := 100 + N.of_nat n;
                      CommandUtil.attachments := 0 |}.

(** The util of an ordinary message, before any response. *)
Definition fresh : CommandUtil.State :=
  CommandUtil.new false 50 true false false ∅ obliging.

(** The util of an ordinary message whose channel is not there. *)
Definition adrift : CommandUtil.State :=
  CommandUtil.new false 50 false false false ∅ obliging.

(** The util of a slash message, before any response. *)
Definition fresh_slash : CommandUtil.State :=
  CommandUtil.new true 50 true false false ∅ obliging.

Definition hello : CommandUtil.SendOptions := CommandUtil.Text "hello".
Definition again : CommandUtil.SendOptions := CommandUtil.Text "again".
Definition with_file : CommandUtil.SendOptions :=
  CommandUtil.Object
    {| CommandUtil.content := "log"; CommandUtil.files := Some 1%nat;
       CommandUtil.payload := false; CommandUtil.ephemeral := Some true;
       CommandUtil.reply := None; CommandUtil.fetchReply := None |}.

End UtilSample.

(** ** More observations *)

Definition is_fetch (c : Call) : bool :=
  match c with
  | RolesFetch _ _ => true
  | _ => false
  end.

(** * Properties *)

(** ** Generic facts about runs *)

Lemma issued_trace {A} (c : Async A) (w : World) (calls : list Call) :
  trace (c w).2 = trace w ++ calls → issued c w = calls.
Proof.
  intros E. unfold issued. rewrite E. apply drop_app_length.
Qed.

(** Unfold a handler down to the state-passing function it denotes. *)
Ltac run_async :=
  unfold roles_fetch, roles_add, roles_remove, roles_cache_has, util_send,
    webhook_send, logger_info, database_getRole, member_roles,
    member_user_tag;
  unfold catch, unawaited, bind, perform, gets, modify, resolve, throw;
  cbn [fst snd bindings platform_roles held faults trace floating
       log_call set_held add_floating arg_member negb].

Example run_add :
  let '(r, w) := Staff_exec Sample.message
                   {| arg_member := JsMember Sample.alice |}
                   Sample.bound_world in
  r = Fulfilled tt ∧
  trace w = [RolesFetch 1 7; RolesAdd 1 20 7;
             UtilSend "Added **Staff** role to **alice#0001**"] ∧
  roles_of w Sample.alice = {[ 7%N ]}.
Proof. vm_compute. split; [|split]; reflexivity. Qed.

Example run_remove :
  let '(r, w) := Staff_exec Sample.message
                   {| arg_member := JsMember Sample.alice |}
                   Sample.staffed_world in
  r = Fulfilled tt ∧
  trace w = [RolesFetch 1 7; RolesRemove 1 20 7;
             UtilSend "Removed **Staff** role from **alice#0001**"] ∧
  roles_of w Sample.alice = ∅.
Proof. vm_compute. split; [|split]; reflexivity. Qed.

(** ** Run equations of [Staff.exec]

    One equation per path through the handler: the settled promise and the
    world the invocation leaves behind. *)

Section RunEquations.

Variables (message : Message) (args : StaffArgs) (w : World).

Local Abbreviation g := (guild_id (message_guild message)).

Lemma Staff_exec_run_no_member :
  truthy (arg_member args) = false →
  Staff_exec message args w =
    (settles w (UtilSend msg_no_user), log_call (UtilSend msg_no_user) w).
Proof.
  intros Hfalsy. unfold Staff_exec, settles. run_async.
  rewrite Hfalsy. cbn.
  by destruct (faults w (UtilSend msg_no_user)).
Qed.

Lemma Staff_exec_run_not_setup :
  truthy (arg_member args) = true →
  bindings w !! (g, "staff") = None →
  Staff_exec message args w =
    (settles w (UtilSend msg_not_setup),
     log_call (UtilSend msg_not_setup) w).
Proof.
  intros Htruthy Hnone. unfold Staff_exec, settles. run_async.
  rewrite Htruthy, Hnone. cbn.
  by destruct (faults w (UtilSend msg_not_setup)).
Qed.

Lemma Staff_exec_run_not_present (id : Snowflake) :
  truthy (arg_member args) = true →
  bindings w !! (g, "staff") = Some id →
  role_unresolved w g id →
  Staff_exec message args w =
    (settles w (UtilSend msg_not_present),
     log_call (UtilSend msg_not_present) (log_call (RolesFetch g id) w)).
Proof.
  intros Htruthy Hsome Hgone. unfold Staff_exec, settles. run_async.
  rewrite Htruthy, Hsome. cbn.
  destruct (faults w (RolesFetch g id)) as [e|] eqn:Hfetch; cbn.
  - by destruct (faults w (UtilSend msg_not_present)).
  - destruct Hgone as [Hgone | [e He]]; [| congruence].
    rewrite Hgone. cbn.
    by destruct (faults w (UtilSend msg_not_present)).
Qed.

Lemma Staff_exec_run_string (s : string) (id : Snowflake) (name : string) :
  arg_member args = JsString s →
  s ≠ "" →
  bindings w !! (g, "staff") = Some id →
  faults w (RolesFetch g id) = None →
  platform_roles w !! (g, id) = Some name →
  Staff_exec message args w =
    (Rejected
       (TypeError "Cannot read properties of undefined (reading 'cache')"),
     log_call (RolesFetch g id) w).
Proof.
  intros Harg Hs Hsome Hfetch Hrole. unfold Staff_exec. run_async.
  rewrite Harg, Hsome. cbn.
  apply String.eqb_neq in Hs. rewrite Hs. cbn.
  rewrite Hfetch. cbn. rewrite Hrole. reflexivity.
Qed.

Lemma Staff_exec_run_toggle (m : GuildMember) (role : Role) :
  toggle_target message args w = Some (m, role) →
  Staff_exec message args w =
    let fetched := log_call (RolesFetch g (role_id role)) w in
    let call := toggle_call w m (role_id role) in
    match faults w call with
    | Some e => (Rejected e, log_call call fetched)
    | None =>
        let reply := UtilSend (toggle_reply w m role) in
        (settles w reply,
         log_call reply
           (set_held (<[(member_guild m, member_id m) :=
                          toggled w m (role_id role)]> (held w))
              (log_call call fetched)))
    end.
Proof.
  unfold toggle_target.
  destruct (arg_member args) as [| | |m'] eqn:Harg; try discriminate.
  destruct (bindings w !! (g, "staff")) as [id|] eqn:Hsome; try discriminate.
  destruct (faults w (RolesFetch g id)) eqn:Hfetch; try discriminate.
  destruct (platform_roles w !! (g, id)) as [name|] eqn:Hrole;
    try discriminate.
  intros [= -> <-].
  unfold Staff_exec, settles, toggle_call, toggled, toggle_reply.
  run_async. rewrite Harg, Hsome. cbn.
  rewrite Hfetch. cbn. rewrite Hrole. cbn.
  change (roles_of (log_call (RolesFetch g id) w) m) with (roles_of w m).
  destruct (bool_decide (id ∈ roles_of w m)); cbn.
  - destruct (faults w (RolesRemove _ _ _)); [reflexivity |]. cbn.
    by destruct (faults w (UtilSend _)).
  - destruct (faults w (RolesAdd _ _ _)); [reflexivity |]. cbn.
    by destruct (faults w (UtilSend _)).
Qed.

End RunEquations.

(** In a guild the handler is [Staff_exec]; outside it throws at once. *)
Lemma Staff_exec_any_in_guild (message : AnyMessage) (home : Guild)
    (args : StaffArgs) :
  guild message = Some home →
  Staff_exec_any message args = Staff_exec {| message_guild := home |} args.
Proof. intros Hguild. unfold Staff_exec_any. by rewrite Hguild. Qed.

Lemma Staff_exec_any_outside (message : AnyMessage) (args : StaffArgs)
    (w : World) :
  guild message = None →
  Staff_exec_any message args w =
    (Rejected (TypeError "Cannot read properties of null (reading 'id')"), w).
Proof. intros Hguild. unfold Staff_exec_any. by rewrite Hguild. Qed.

(** ** The guards of the [Staff] command *)

(** C7, as stated, fails outside a guild: the handler reads
    [message.guild.id] before it looks at the argument, so on a direct
    message with no member given it throws a [TypeError]; nothing is
    replied. *)
Lemma Staff_exec_no_member_counterexample :
  truthy (arg_member {| arg_member := JsNull |}) = false ∧
  Staff_exec_any direct_message {| arg_member := JsNull |} Sample.bound_world =
    (Rejected (TypeError "Cannot read properties of null (reading 'id')"),
     Sample.bound_world) ∧
  issued (Staff_exec_any direct_message {| arg_member := JsNull |})
    Sample.bound_world = [].
Proof. split; [reflexivity | split; reflexivity]. Qed.

(** C7 (amended). Whenever the [member] argument is not resolved (it is
    nullish, or otherwise falsy): on a message sent in a guild the command
    sends the single reply asking for a valid user and issues nothing
    else, the roles held by the members are left as they were, and [exec]
    settles as that reply does; on a message sent outside a guild [exec]
    is rejected with the [TypeError] of reading [message.guild.id], with
    nothing issued. *)
Theorem Staff_exec_no_member (message : AnyMessage) (args : StaffArgs)
    (w : World) :
  truthy (arg_member args) = false →
  match guild message with
  | Some _ =>
      issued (Staff_exec_any message args) w = [UtilSend msg_no_user] ∧
      filter is_mutation (issued (Staff_exec_any message args) w) = [] ∧
      held (Staff_exec_any message args w).2 = held w ∧
      (Staff_exec_any message args w).1 = settles w (UtilSend msg_no_user)
  | None =>
      Staff_exec_any message args w =
        (Rejected (TypeError "Cannot read properties of null (reading 'id')"),
         w)
  end.
Proof.
  intros Hfalsy.
  destruct (guild message) as [home |] eqn:Hguild.
  - rewrite (Staff_exec_any_in_guild message home args Hguild).
    pose proof (Staff_exec_run_no_member {| message_guild := home |} args w
                  Hfalsy) as E.
    rewrite (issued_trace _ w [UtilSend msg_no_user]) by (by rewrite E).
    rewrite E. done.
  - apply (Staff_exec_any_outside message args w Hguild).
Qed.

Lemma Staff_exec_no_member_witness :
  truthy (arg_member {| arg_member := JsNull |}) = false ∧
  issued (Staff_exec_any guild_message {| arg_member := JsNull |})
    Sample.bound_world = [UtilSend msg_no_user].
Proof.
  split; [reflexivity |].
  exact (proj1 (Staff_exec_no_member guild_message {| arg_member := JsNull |}
                  Sample.bound_world eq_refl)).
Defined.

(** C8, as stated, fails where the argument is missing as well: the
    member guard comes first, so with no member and no binding the reply
    asks for a valid user and says nothing about the missing setup. *)
Lemma Staff_exec_no_binding_counterexample :
  bindings Sample.empty_world !! (guild_id Sample.guild, "staff") = None ∧
  issued (Staff_exec Sample.message {| arg_member := JsNull |})
    Sample.empty_world = [UtilSend msg_no_user] ∧
  UtilSend msg_not_setup ∉
    issued (Staff_exec Sample.message {| arg_member := JsNull |})
      Sample.empty_world.
Proof.
  assert (E : issued (Staff_exec Sample.message {| arg_member := JsNull |})
                Sample.empty_world = [UtilSend msg_no_user])
    by (vm_compute; reflexivity).
  split; [reflexivity | split; [exact E |]].
  rewrite E. intros Hin. apply list_elem_of_singleton in Hin. discriminate.
Qed.

(** C8 (amended). Whenever a [member] argument is supplied (it is truthy)
    and the guild has no binding stored under ["staff"], the command sends
    the single reply that the staff role is not set up and issues nothing
    else; the roles held by the members are left as they were. *)
Theorem Staff_exec_no_binding (message : Message) (args : StaffArgs) (w : World) :
  truthy (arg_member args) = true →
  bindings w !! (guild_id (message_guild message), "staff") = None →
  issued (Staff_exec message args) w = [UtilSend msg_not_setup] ∧
  filter is_mutation (issued (Staff_exec message args) w) = [] ∧
  held (Staff_exec message args w).2 = held w ∧
  (Staff_exec message args w).1 = settles w (UtilSend msg_not_setup).
Proof.
  intros Htruthy Hnone.
  pose proof (Staff_exec_run_not_setup message args w Htruthy Hnone) as E.
  rewrite (issued_trace _ w [UtilSend msg_not_setup]) by (by rewrite E).
  rewrite E. done.
Qed.

Lemma Staff_exec_no_binding_witness :
  issued (Staff_exec Sample.message {| arg_member := JsMember Sample.alice |})
    Sample.empty_world = [UtilSend msg_not_setup].
Proof.
  apply (Staff_exec_no_binding Sample.message
           {| arg_member := JsMember Sample.alice |} Sample.empty_world);
    reflexivity.
Defined.

(** C9, as stated, fails where the argument is missing as well: with no
    member, a stored binding and the bound role deleted, the reply asks
    for a valid user, and the role is not even looked up. *)
Lemma Staff_exec_role_absent_counterexample :
  bindings Sample.stale_world !! (guild_id Sample.guild, "staff") = Some 7%N ∧
  platform_roles Sample.stale_world !! (guild_id Sample.guild, 7%N) = None ∧
  issued (Staff_exec Sample.message {| arg_member := JsNull |})
    Sample.stale_world = [UtilSend msg_no_user] ∧
  UtilSend msg_not_present ∉
    issued (Staff_exec Sample.message {| arg_member := JsNull |})
      Sample.stale_world.
Proof.
  assert (E : issued (Staff_exec Sample.message {| arg_member := JsNull |})
                Sample.stale_world = [UtilSend msg_no_user])
    by (vm_compute; reflexivity).
  split; [reflexivity | split; [reflexivity | split; [exact E |]]].
  rewrite E. intros Hin. apply list_elem_of_singleton in Hin. discriminate.
Qed.

(** C9 (amended). Whenever a [member] argument is supplied (it is
    truthy), the guild has a binding under ["staff"], and fetching the
    bound id yields no role (the platform has none under that id, or the
    fetch is rejected), the command fetches once, sends the single reply
    that the staff role is not present, and issues nothing else; the roles
    held by the members are left as they were. *)
Theorem Staff_exec_role_absent (message : Message) (args : StaffArgs)
    (w : World) (id : Snowflake) :
  let g := guild_id (message_guild message) in
  truthy (arg_member args) = true →
  bindings w !! (g, "staff") = Some id →
  role_unresolved w g id →
  issued (Staff_exec message args) w =
    [RolesFetch g id; UtilSend msg_not_present] ∧
  filter is_mutation (issued (Staff_exec message args) w) = [] ∧
  held (Staff_exec message args w).2 = held w ∧
  (Staff_exec message args w).1 = settles w (UtilSend msg_not_present).
Proof.
  intros g Htruthy Hsome Hgone.
  pose proof (Staff_exec_run_not_present message args w id
                Htruthy Hsome Hgone) as E.
  fold g in E.
  rewrite (issued_trace _ w [RolesFetch g id; UtilSend msg_not_present]).
  - rewrite E. done.
  - rewrite E. cbn. by rewrite <- app_assoc.
Qed.

Lemma Staff_exec_role_absent_witness :
  issued (Staff_exec Sample.message {| arg_member := JsMember Sample.alice |})
    Sample.stale_world = [RolesFetch 1 7; UtilSend msg_not_present].
Proof.
  apply (Staff_exec_role_absent Sample.message
           {| arg_member := JsMember Sample.alice |} Sample.stale_world 7%N).
  - reflexivity.
  - reflexivity.
  - left. reflexivity.
Defined.

(** ** The toggle *)

Lemma append_assoc (a b c : string) : (a +:+ b) +:+ c = a +:+ b +:+ c.
Proof.
  induction a as [| x a IH]; [done |].
  change (String x ((a +:+ b) +:+ c) = String x (a +:+ b +:+ c)).
  by rewrite IH.
Qed.

Lemma msg_removed_contains (role : Role) (tag : string) :
  contains "Removed" (msg_removed role tag) ∧
  contains (role_name role) (msg_removed role tag) ∧
  contains tag (msg_removed role tag).
Proof.
  unfold contains, msg_removed. split; [| split].
  - exists "", (" **" +:+ role_name role +:+ "** role from **" +:+ tag +:+ "**").
    reflexivity.
  - exists "Removed **", ("** role from **" +:+ tag +:+ "**"). reflexivity.
  - exists ("Removed **" +:+ role_name role +:+ "** role from **"), "**".
    by rewrite !append_assoc.
Qed.

Lemma msg_added_contains (role : Role) (tag : string) :
  contains "Added" (msg_added role tag) ∧
  contains (role_name role) (msg_added role tag) ∧
  contains tag (msg_added role tag).
Proof.
  unfold contains, msg_added. split; [| split].
  - exists "", (" **" +:+ role_name role +:+ "** role to **" +:+ tag +:+ "**").
    reflexivity.
  - exists "Added **", ("** role to **" +:+ tag +:+ "**"). reflexivity.
  - exists ("Added **" +:+ role_name role +:+ "** role to **"), "**".
    by rewrite !append_assoc.
Qed.

(** C1, as stated, fails where the platform rejects the role call: the
    member is given, the binding is stored and the bound role is fetched,
    but the grant is refused; [exec] is rejected with that error, no reply
    is sent and the member holds what it held. *)
Lemma Staff_exec_toggles_counterexample :
  guild guild_message = Some Sample.guild ∧
  bindings Sample.add_outage_world !! (guild_id Sample.guild, "staff")
    = Some 7%N ∧
  faults Sample.add_outage_world (RolesFetch 1 7) = None ∧
  platform_roles Sample.add_outage_world !! (guild_id Sample.guild, 7%N)
    = Some "Staff" ∧
  roles_of Sample.add_outage_world Sample.alice = ∅ ∧
  issued (Staff_exec_any guild_message {| arg_member := JsMember Sample.alice |})
    Sample.add_outage_world = [RolesFetch 1 7; RolesAdd 1 20 7] ∧
  (Staff_exec_any guild_message {| arg_member := JsMember Sample.alice |}
     Sample.add_outage_world).1 = Rejected Sample.outage ∧
  roles_of
    (Staff_exec_any guild_message {| arg_member := JsMember Sample.alice |}
       Sample.add_outage_world).2 Sample.alice = ∅.
Proof. vm_compute. repeat split; reflexivity. Qed.

(** C1 (amended). On a message sent in a guild, with a member object as
    argument, a binding under ["staff"] and the bound role fetched from
    the platform, the command issues the one role call the member's roles
    call for.  When the platform accepts it: if the member holds the
    role, the command has removed it and replies with the "Removed"
    message built from the role's name and the member's tag; otherwise it
    has added the role and replies with the "Added" message built the
    same way.  When the platform rejects it, [exec] is rejected with that
    error, no reply is sent and the member holds what it held. *)
Theorem Staff_exec_toggles (message : AnyMessage) (home : Guild)
    (m : GuildMember) (w : World) (id : Snowflake) (name : string) :
  let g := guild_id home in
  let args := {| arg_member := JsMember m |} in
  let role := {| role_id := id; role_name := name |} in
  let tag := user_tag (member_user m) in
  let w' := (Staff_exec_any message args w).2 in
  guild message = Some home →
  bindings w !! (g, "staff") = Some id →
  faults w (RolesFetch g id) = None →
  platform_roles w !! (g, id) = Some name →
  match faults w (toggle_call w m id) with
  | None =>
      if bool_decide (id ∈ roles_of w m) then
        issued (Staff_exec_any message args) w =
          [RolesFetch g id; RolesRemove (member_guild m) (member_id m) id;
           UtilSend (msg_removed role tag)] ∧
        roles_of w' m = roles_of w m ∖ {[id]} ∧
        contains "Removed" (msg_removed role tag) ∧
        contains name (msg_removed role tag) ∧
        contains tag (msg_removed role tag)
      else
        issued (Staff_exec_any message args) w =
          [RolesFetch g id; RolesAdd (member_guild m) (member_id m) id;
           UtilSend (msg_added role tag)] ∧
        roles_of w' m = {[id]} ∪ roles_of w m ∧
        contains "Added" (msg_added role tag) ∧
        contains name (msg_added role tag) ∧
        contains tag (msg_added role tag)
  | Some e =>
      issued (Staff_exec_any message args) w =
        [RolesFetch g id; toggle_call w m id] ∧
      (Staff_exec_any message args w).1 = Rejected e ∧
      held w' = held w
  end.
Proof.
  intros g args role tag w' Hguild Hsome Hfetch Hrole. subst w'.
  rewrite (Staff_exec_any_in_guild message home args Hguild).
  set (message0 := {| message_guild := home |}).
  assert (Htarget : toggle_target message0 args w = Some (m, role)).
  { unfold toggle_target. cbn. fold g. by rewrite Hsome, Hfetch, Hrole. }
  pose proof (Staff_exec_run_toggle message0 args w m role Htarget) as E.
  cbn [role_id role] in E. cbv zeta in E.
  change (guild_id (message_guild message0)) with g in E.
  destruct (faults w (toggle_call w m id)) as [e |] eqn:Hcall.
  { rewrite E. split; [| done].
    apply issued_trace. rewrite E. cbn. by rewrite <- !app_assoc. }
  unfold toggle_call, toggle_reply, toggled in E. cbn [role_id role] in E.
  destruct (bool_decide (id ∈ roles_of w m)).
  - split; [| split].
    + apply issued_trace. rewrite E. cbn. by rewrite <- !app_assoc.
    + rewrite E. unfold roles_of at 1. cbn. by rewrite lookup_insert_eq.
    + apply (msg_removed_contains role tag).
  - split; [| split].
    + apply issued_trace. rewrite E. cbn. by rewrite <- !app_assoc.
    + rewrite E. unfold roles_of at 1. cbn. by rewrite lookup_insert_eq.
    + apply (msg_added_contains role tag).
Qed.

Lemma Staff_exec_toggles_witness :
  issued (Staff_exec_any guild_message {| arg_member := JsMember Sample.alice |})
    Sample.staffed_world =
    [RolesFetch 1 7; RolesRemove 1 20 7;
     UtilSend "Removed **Staff** role from **alice#0001**"] ∧
  (Staff_exec_any guild_message {| arg_member := JsMember Sample.alice |}
     Sample.add_outage_world).1 = Rejected Sample.outage.
Proof.
  split.
  - apply (Staff_exec_toggles guild_message Sample.guild Sample.alice
             Sample.staffed_world 7%N "Staff"); reflexivity.
  - apply (Staff_exec_toggles guild_message Sample.guild Sample.alice
             Sample.add_outage_world 7%N "Staff"); reflexivity.
Defined.

(** ** Role mutations per invocation *)

(** Off the toggle path an invocation issues no role call and leaves the
    held roles alone. *)
Lemma Staff_exec_guarded (message : Message) (args : StaffArgs) (w : World) :
  toggle_target message args w = None →
  filter is_mutation (issued (Staff_exec message args) w) = [] ∧
  existsb is_mutation (issued (Staff_exec message args) w) = false ∧
  held (Staff_exec message args w).2 = held w.
Proof.
  intros Hnone. set (g := guild_id (message_guild message)).
  destruct (truthy (arg_member args)) eqn:Htruthy.
  2: { pose proof (Staff_exec_run_no_member message args w Htruthy) as E.
       rewrite (issued_trace _ w [UtilSend msg_no_user]) by (by rewrite E).
       by rewrite E. }
  destruct (bindings w !! (g, "staff")) as [id|] eqn:Hsome.
  2: { pose proof (Staff_exec_run_not_setup message args w Htruthy Hsome) as E.
       rewrite (issued_trace _ w [UtilSend msg_not_setup]) by (by rewrite E).
       by rewrite E. }
  assert (Habsent : role_unresolved w g id →
            filter is_mutation (issued (Staff_exec message args) w) = [] ∧
            existsb is_mutation (issued (Staff_exec message args) w) = false ∧
            held (Staff_exec message args w).2 = held w).
  { intros Hgone.
    pose proof (Staff_exec_run_not_present message args w id
                  Htruthy Hsome Hgone) as E. fold g in E.
    rewrite (issued_trace _ w [RolesFetch g id; UtilSend msg_not_present]).
    - by rewrite E.
    - rewrite E. cbn. by rewrite <- app_assoc. }
  destruct (faults w (RolesFetch g id)) as [e|] eqn:Hfetch.
  { apply Habsent. right. rewrite Hfetch. by eexists. }
  destruct (platform_roles w !! (g, id)) as [name|] eqn:Hrole.
  2: { apply Habsent. by left. }
  destruct (arg_member args) as [| | s | m] eqn:Harg; try discriminate.
  - assert (Hs : s ≠ "").
    { intros ->. discriminate. }
    pose proof (Staff_exec_run_string message args w s id name
                  Harg Hs Hsome Hfetch Hrole) as E. fold g in E.
    rewrite (issued_trace _ w [RolesFetch g id]) by (by rewrite E).
    by rewrite E.
  - unfold toggle_target in Hnone. fold g in Hnone.
    rewrite Harg, Hsome, Hfetch, Hrole in Hnone. discriminate.
Qed.

(** The role calls of an invocation in a guild. *)
Lemma Staff_exec_role_calls (message : Message) (args : StaffArgs) (w : World) :
  let calls := issued (Staff_exec message args) w in
  filter is_mutation calls =
    match toggle_target message args w with
    | Some (m, role) => [toggle_call w m (role_id role)]
    | None => []
    end ∧
  (length (filter is_mutation calls) ≤ 1)%nat ∧
  existsb is_role_add calls && existsb is_role_remove calls = false.
Proof.
  intros calls. subst calls.
  destruct (toggle_target message args w) as [[m role]|] eqn:Htarget.
  - pose proof (Staff_exec_run_toggle message args w m role Htarget) as E.
    cbv zeta in E. unfold toggle_call in *.
    set (g := guild_id (message_guild message)) in *.
    destruct (bool_decide (role_id role ∈ roles_of w m));
      match type of E with
      | context [faults w ?call] =>
          destruct (faults w call) as [e|];
            [ rewrite (issued_trace _ w [RolesFetch g (role_id role); call])
            | rewrite (issued_trace _ w
                [RolesFetch g (role_id role); call;
                 UtilSend (toggle_reply w m role)]) ]
      end;
      try (rewrite E; cbn; by rewrite <- !app_assoc);
      (split; [reflexivity | split; [cbv; lia | reflexivity]]).
  - destruct (Staff_exec_guarded message args w Htarget) as (Hnone & Hex & _).
    rewrite Hnone. split; [done | split; [cbn; lia |]].
    apply andb_false_iff. left.
    apply not_true_is_false. intros Hadd.
    apply existsb_exists in Hadd as (c & Hin & Hc).
    assert (Hm : existsb is_mutation
                   (issued (Staff_exec message args) w) = true).
    { apply existsb_exists. exists c. split; [done |]. by destruct c. }
    congruence.
Qed.

Lemma toggle_set_flips (R : gset N) (id : N) :
  id ∈ (if bool_decide (id ∈ R) then R ∖ {[id]} else {[id]} ∪ R) ↔ id ∉ R.
Proof.
  destruct (decide (id ∈ R)) as [Hin | Hin].
  - rewrite (bool_decide_eq_true_2 _ Hin).
    rewrite elem_of_difference, elem_of_singleton. tauto.
  - rewrite (bool_decide_eq_false_2 _ Hin).
    rewrite elem_of_union, elem_of_singleton. tauto.
Qed.

(** C2, as stated, fails in two places.  The binding exists and a member
    is given, but the bound role has been deleted: the invocation mutates
    nothing.  And with all three preconditions holding, the platform
    refuses the grant: a role call is issued, but the member holds what
    it held. *)
Lemma Staff_exec_mutations_counterexample :
  (bindings Sample.stale_world !! (guild_id Sample.guild, "staff")
     = Some 7%N ∧
   filter is_mutation
     (issued (Staff_exec_any guild_message
                {| arg_member := JsMember Sample.alice |})
        Sample.stale_world) = [] ∧
   held (Staff_exec_any guild_message
           {| arg_member := JsMember Sample.alice |}
           Sample.stale_world).2 = held Sample.stale_world) ∧
  (any_target guild_message {| arg_member := JsMember Sample.alice |}
     Sample.add_outage_world = Some (Sample.alice, Sample.staff_role) ∧
   held (Staff_exec_any guild_message
           {| arg_member := JsMember Sample.alice |}
           Sample.add_outage_world).2 = held Sample.add_outage_world).
Proof. vm_compute. repeat split; reflexivity. Qed.

(** C2 (amended). An invocation issues at most one role call: exactly
    one, the removal or the grant that the member's current roles call
    for, when all three preconditions hold (a member object, on a message
    in a guild that has a binding, the bound role fetched), and none when
    any of them fails; never both a grant and a removal, and never none
    when all three hold.  The roles held change only through that call:
    when the platform accepts it the member gains the bound role if it
    did not hold it and loses it if it did, and nothing else changes; when
    the platform rejects it, or a precondition fails, the held roles are
    exactly as before. *)
Theorem Staff_exec_mutations (message : AnyMessage) (args : StaffArgs)
    (w : World) :
  let calls := issued (Staff_exec_any message args) w in
  let w' := (Staff_exec_any message args w).2 in
  filter is_mutation calls =
    match any_target message args w with
    | Some (m, role) => [toggle_call w m (role_id role)]
    | None => []
    end ∧
  (length (filter is_mutation calls) ≤ 1)%nat ∧
  existsb is_role_add calls && existsb is_role_remove calls = false ∧
  match any_target message args w with
  | Some (m, role) =>
      match faults w (toggle_call w m (role_id role)) with
      | None =>
          held w' = <[(member_guild m, member_id m) :=
                        toggled w m (role_id role)]> (held w) ∧
          (role_id role ∈ roles_of w' m ↔ role_id role ∉ roles_of w m)
      | Some _ => held w' = held w
      end
  | None => held w' = held w
  end.
Proof.
  intros calls w'. subst calls w'. unfold any_target.
  destruct (guild message) as [home|] eqn:Hguild.
  - rewrite (Staff_exec_any_in_guild message home args Hguild).
    set (message0 := {| message_guild := home |}).
    destruct (Staff_exec_role_calls message0 args w) as (Hcalls & Hone & Hboth).
    split; [exact Hcalls | split; [exact Hone | split; [exact Hboth |]]].
    destruct (toggle_target message0 args w) as [[m role]|] eqn:Htarget.
    + pose proof (Staff_exec_run_toggle message0 args w m role Htarget) as E.
      cbv zeta in E.
      destruct (faults w (toggle_call w m (role_id role))); [by rewrite E |].
      rewrite E. cbn [snd held log_call set_held]. split; [done |].
      unfold roles_of at 1. cbn [held log_call set_held].
      rewrite lookup_insert_eq. cbn [default]. unfold toggled.
      apply toggle_set_flips.
    + by destruct (Staff_exec_guarded message0 args w Htarget) as (_ & _ & ?).
  - rewrite (Staff_exec_any_outside message args w Hguild).
    unfold issued. rewrite (Staff_exec_any_outside message args w Hguild).
    cbn [snd]. rewrite drop_all. cbn. repeat split; try done; lia.
Qed.

(** ** Platform errors *)

Lemma ReadyListener_exec_run (client : AkairoClient) (w : World) :
  let send := WebhookSend webhook_url (ready_content client) in
  let line := LoggerInfo (ready_line client) in
  ReadyListener_exec client w =
    (settles w line,
     log_call line (add_floating (settles w send) (log_call send w))).
Proof.
  unfold ReadyListener_exec, settles. run_async.
  destruct (faults w (WebhookSend _ _)); cbn;
    by destruct (faults w (LoggerInfo _)).
Qed.

(** C3, as stated, fails for the role fetch: the handler attaches
    [.catch(() => null)] to it, so a rejected fetch never leaves [exec];
    the invocation is fulfilled after the "not present" reply. *)
Lemma platform_errors_counterexample :
  faults Sample.fetch_outage_world (RolesFetch 1 7) = Some Sample.outage ∧
  (Staff_exec Sample.message {| arg_member := JsMember Sample.alice |}
     Sample.fetch_outage_world).1 = Fulfilled tt ∧
  issued (Staff_exec Sample.message {| arg_member := JsMember Sample.alice |})
    Sample.fetch_outage_world = [RolesFetch 1 7; UtilSend msg_not_present].
Proof. vm_compute. split; [| split]; reflexivity. Qed.

(** C3 (amended). An error of the role grant or removal is not caught:
    [exec] is rejected with that very error, before any reply.  An error
    of the role fetch is caught by the handler itself and handled as an
    absent role: the invocation goes on to the "not present" reply and
    settles as that reply does.  An error of the webhook send is caught
    by nobody, and as the send is not awaited it does not reject the
    listener's [exec] either: it stays behind as the rejection of a
    promise no one holds. *)
Theorem platform_errors :
  (∀ (message : Message) (args : StaffArgs) (w : World)
     (m : GuildMember) (role : Role) (e : JsError),
     toggle_target message args w = Some (m, role) →
     faults w (toggle_call w m (role_id role)) = Some e →
     (Staff_exec message args w).1 = Rejected e ∧
     issued (Staff_exec message args) w =
       [RolesFetch (guild_id (message_guild message)) (role_id role);
        toggle_call w m (role_id role)] ∧
     held (Staff_exec message args w).2 = held w) ∧
  (∀ (message : Message) (args : StaffArgs) (w : World)
     (id : Snowflake) (e : JsError),
     truthy (arg_member args) = true →
     bindings w !! (guild_id (message_guild message), "staff") = Some id →
     faults w (RolesFetch (guild_id (message_guild message)) id) = Some e →
     (Staff_exec message args w).1 = settles w (UtilSend msg_not_present) ∧
     issued (Staff_exec message args) w =
       [RolesFetch (guild_id (message_guild message)) id;
        UtilSend msg_not_present]) ∧
  (∀ (client : AkairoClient) (w : World) (e : JsError),
     faults w (WebhookSend webhook_url (ready_content client)) = Some e →
     (ReadyListener_exec client w).1 =
       settles w (LoggerInfo (ready_line client)) ∧
     floating (ReadyListener_exec client w).2 = floating w ++ [Rejected e]).
Proof.
  split; [| split].
  - intros message args w m role e Htarget Hfault.
    pose proof (Staff_exec_run_toggle message args w m role Htarget) as E.
    cbv zeta in E. rewrite Hfault in E.
    rewrite (issued_trace _ w
      [RolesFetch (guild_id (message_guild message)) (role_id role);
       toggle_call w m (role_id role)]).
    + by rewrite E.
    + rewrite E. cbn. by rewrite <- app_assoc.
  - intros message args w id e Htruthy Hsome Hfault.
    assert (Hgone : role_unresolved w (guild_id (message_guild message)) id).
    { right. rewrite Hfault. by eexists. }
    pose proof (Staff_exec_run_not_present message args w id
                  Htruthy Hsome Hgone) as E.
    rewrite (issued_trace _ w
      [RolesFetch (guild_id (message_guild message)) id;
       UtilSend msg_not_present]).
    + by rewrite E.
    + rewrite E. cbn. by rewrite <- app_assoc.
  - intros client w e Hfault.
    pose proof (ReadyListener_exec_run client w) as E. cbv zeta in E.
    rewrite E. cbn. unfold settles. by rewrite Hfault.
Qed.

Lemma platform_errors_witness :
  (Staff_exec Sample.message {| arg_member := JsMember Sample.alice |}
     Sample.add_outage_world).1 = Rejected Sample.outage ∧
  (Staff_exec Sample.message {| arg_member := JsMember Sample.alice |}
     Sample.fetch_outage_world).1 = Fulfilled tt ∧
  floating (ReadyListener_exec Sample.bot Sample.webhook_outage_world).2 =
    [Rejected Sample.outage].
Proof.
  destruct platform_errors as (Hcall & Hfetch & Hhook).
  split; [| split].
  - apply (Hcall Sample.message {| arg_member := JsMember Sample.alice |}
             Sample.add_outage_world Sample.alice Sample.staff_role
             Sample.outage); reflexivity.
  - apply (Hfetch Sample.message {| arg_member := JsMember Sample.alice |}
             Sample.fetch_outage_world 7%N Sample.outage); reflexivity.
  - apply (Hhook Sample.bot Sample.webhook_outage_world Sample.outage).
    reflexivity.
Defined.

(** ** A string in place of the member *)

Section UnionCast.

Variable checkMember : string → GuildMember → bool.

(** The cast of the command's [member] argument: a phrase that names no
    member of the guild falls through the [member] caster to the
    [string] caster and comes out as the phrase itself. *)
Lemma Staff_member_cast_string (message : CastContext) (phrase : string) :
  phrase ≠ "" →
  resolveMember checkMember phrase (members_cache message) = None →
  Argument_cast (Argument_union [BuiltIn "member"; BuiltIn "string"])
    (TypeResolver_type checkMember) message phrase = JsString phrase.
Proof.
  intros Hphrase Hnobody. apply String.eqb_neq in Hphrase.
  cbn. unfold phrase_or_null. rewrite Hphrase.
  destruct (inGuild message); cbn; [by rewrite Hnobody | done].
Qed.

Lemma Staff_member_cast_member (message : CastContext) (phrase : string)
    (m : GuildMember) :
  phrase ≠ "" →
  inGuild message = true →
  resolveMember checkMember phrase (members_cache message) = Some m →
  Argument_cast (Argument_union [BuiltIn "member"; BuiltIn "string"])
    (TypeResolver_type checkMember) message phrase = JsMember m.
Proof.
  intros Hphrase Hguild Hfound. apply String.eqb_neq in Hphrase.
  cbn. by rewrite Hphrase, Hguild, Hfound.
Qed.

End UnionCast.

(** C4, as stated, fails where the guild has no binding: the string
    passes the member guard, but the next guard replies that the role is
    not set up and the invocation is fulfilled; nothing is dereferenced
    and no [TypeError] is thrown. *)
Lemma Staff_exec_string_argument_counterexample :
  truthy (JsString "ghost") = true ∧
  Staff_exec_any guild_message {| arg_member := JsString "ghost" |}
    Sample.empty_world =
    (Fulfilled tt, log_call (UtilSend msg_not_setup) Sample.empty_world).
Proof. split; reflexivity. Qed.

(** C4 (amended). With a non-empty string as [member] argument the
    member guard lets the invocation through (the "valid user" reply is
    never sent) and no role call is issued, whatever the message and the
    guild's setup.  On a message in a guild with a binding whose role is
    fetched, reading the role cache off the string throws: [exec] is
    rejected with a [TypeError], having issued the fetch and no reply.
    With no binding the handler replies "not set up" instead, with the
    bound role not fetched (absent, or the fetch rejected) it replies "not
    present", and in both cases [exec] settles as that reply does.
    Outside a guild [exec] is rejected with the [TypeError] of reading
    [message.guild.id], before any guard. *)
Theorem Staff_exec_string_argument (message : AnyMessage) (s : string)
    (w : World) :
  let args := {| arg_member := JsString s |} in
  let run := Staff_exec_any message args in
  s ≠ "" →
  truthy (arg_member args) = true ∧
  (UtilSend msg_no_user ∉ issued run w) ∧
  filter is_mutation (issued run w) = [] ∧
  held (run w).2 = held w ∧
  match guild message with
  | None =>
      run w =
        (Rejected (TypeError "Cannot read properties of null (reading 'id')"),
         w)
  | Some home =>
      let g := guild_id home in
      match bindings w !! (g, "staff") with
      | None =>
          issued run w = [UtilSend msg_not_setup] ∧
          (run w).1 = settles w (UtilSend msg_not_setup)
      | Some id =>
          match faults w (RolesFetch g id), platform_roles w !! (g, id) with
          | None, Some _ =>
              issued run w = [RolesFetch g id] ∧
              (run w).1 =
                Rejected
                  (TypeError
                     "Cannot read properties of undefined (reading 'cache')")
          | _, _ =>
              issued run w = [RolesFetch g id; UtilSend msg_not_present] ∧
              (run w).1 = settles w (UtilSend msg_not_present)
          end
      end
  end.
Proof.
  intros args run Hs. subst run.
  assert (Htruthy : truthy (arg_member args) = true).
  { cbn. apply String.eqb_neq in Hs. by rewrite Hs. }
  split; [exact Htruthy |].
  assert (Hnot1 : ∀ c : Call, c ≠ UtilSend msg_no_user →
            UtilSend msg_no_user ∉ [c]).
  { intros c Hc Hin. apply list_elem_of_singleton in Hin. congruence. }
  assert (Hnot2 : ∀ c d : Call, c ≠ UtilSend msg_no_user →
            d ≠ UtilSend msg_no_user → UtilSend msg_no_user ∉ [c; d]).
  { intros c d Hc Hd Hin. apply elem_of_cons in Hin as [Hin | Hin];
      [congruence |]. apply list_elem_of_singleton in Hin. congruence. }
  destruct (guild message) as [home|] eqn:Hguild.
  2: { assert (Hnone : issued (Staff_exec_any message args) w = []).
       { unfold issued. rewrite (Staff_exec_any_outside message args w Hguild).
         cbn [snd]. apply drop_all. }
       rewrite Hnone, (Staff_exec_any_outside message args w Hguild).
       repeat split; try done. apply not_elem_of_nil. }
  rewrite (Staff_exec_any_in_guild message home args Hguild).
  set (message0 := {| message_guild := home |}).
  set (g := guild_id home). cbv zeta.
  assert (Htarget : toggle_target message0 args w = None) by reflexivity.
  destruct (Staff_exec_guarded message0 args w Htarget) as (Hnone & _ & Hheld).
  destruct (bindings w !! (g, "staff")) as [id|] eqn:Hsome.
  2: { pose proof (Staff_exec_run_not_setup message0 args w
                     Htruthy Hsome) as E.
       assert (Hcalls : issued (Staff_exec message0 args) w
                        = [UtilSend msg_not_setup])
         by (apply issued_trace; by rewrite E).
       rewrite Hcalls in *. rewrite E.
       repeat split; try done. by apply Hnot1. }
  assert (Habsent : role_unresolved w g id →
            (UtilSend msg_no_user ∉ issued (Staff_exec message0 args) w) ∧
            issued (Staff_exec message0 args) w
              = [RolesFetch g id; UtilSend msg_not_present] ∧
            (Staff_exec message0 args w).1
              = settles w (UtilSend msg_not_present)).
  { intros Hgone.
    pose proof (Staff_exec_run_not_present message0 args w id
                  Htruthy Hsome Hgone) as E.
    change (guild_id (message_guild message0)) with g in E.
    assert (Hcalls : issued (Staff_exec message0 args) w
                     = [RolesFetch g id; UtilSend msg_not_present]).
    { apply issued_trace. rewrite E. cbn. by rewrite <- app_assoc. }
    rewrite Hcalls, E. repeat split; try done. by apply Hnot2. }
  destruct (faults w (RolesFetch g id)) as [e|] eqn:Hfetch.
  { destruct Habsent as (Hno & Hcalls & Hres).
    { right. rewrite Hfetch. by eexists. }
    done. }
  destruct (platform_roles w !! (g, id)) as [name|] eqn:Hrole.
  2: { destruct Habsent as (Hno & Hcalls & Hres); [by left | done]. }
  pose proof (Staff_exec_run_string message0 args w s id name
                eq_refl Hs Hsome Hfetch Hrole) as E.
  change (guild_id (message_guild message0)) with g in E.
  assert (Hcalls : issued (Staff_exec message0 args) w = [RolesFetch g id])
    by (apply issued_trace; by rewrite E).
  rewrite Hcalls in *. rewrite E.
  repeat split; try done. by apply Hnot1.
Qed.

Lemma Staff_exec_string_argument_witness :
  "ghost" ≠ "" ∧
  (Staff_exec_any guild_message {| arg_member := JsString "ghost" |}
     Sample.bound_world).1 =
    Rejected
      (TypeError "Cannot read properties of undefined (reading 'cache')").
Proof.
  split; [discriminate |].
  destruct (Staff_exec_string_argument guild_message "ghost"
              Sample.bound_world ltac:(discriminate))
    as (_ & _ & _ & _ & _ & Hthrows).
  exact Hthrows.
Defined.

(** ** The abstract [exec] of components *)

Lemma lookup_exec_inherited (c : Class) :
  overrides_exec c = false → lookup_exec c = Component_exec.
Proof.
  induction c as [| name super IH own]; [done |].
  destruct own as [body|]; cbn; [discriminate | exact IH].
Qed.

(** C5. Invoking [exec] on an instance of a class declared as
    [class name extends super] that defines no [exec], where no class
    from [super] up to the component base class defines one either, is
    rejected with the [NOT_IMPLEMENTED] error that carries the name of
    that very class, [name], and the method name ["exec"]; nothing else
    happens. *)
Theorem Component_exec_not_implemented (name : string) (super : Class)
    (w : World) :
  overrides_exec super = false →
  invoke_exec (Extends name super None) w =
    (Rejected (AkairoError "NOT_IMPLEMENTED" [name; "exec"]), w).
Proof.
  intros Hinherits. unfold invoke_exec. cbn [lookup_exec class_name].
  by rewrite (lookup_exec_inherited super Hinherits).
Qed.

Lemma Component_exec_not_implemented_witness :
  invoke_exec Sample.PingButton Sample.empty_world =
    (Rejected (AkairoError "NOT_IMPLEMENTED" ["PingButton"; "exec"]),
     Sample.empty_world) ∧
  invoke_exec Sample.LoudPingButton Sample.empty_world =
    (Rejected (AkairoError "NOT_IMPLEMENTED" ["LoudPingButton"; "exec"]),
     Sample.empty_world).
Proof.
  split.
  - apply (Component_exec_not_implemented "PingButton" Component
             Sample.empty_world). reflexivity.
  - apply (Component_exec_not_implemented "LoudPingButton" Sample.PingButton
             Sample.empty_world). reflexivity.
Defined.

(** ** The [ready] event *)

(** C6. On [ready] the listener issues exactly two outbound calls, in
    this order: one webhook send whose content is the bot's tag, a line
    break and the token, and one log write.  The send is fired and
    forgotten: however its promise settles, it is left as it is (a
    rejection is not caught, nothing is sent again) and the listener's own
    promise settles as the log write does.  The listener keeps no state:
    bindings, roles and held roles are as before. *)
Theorem ReadyListener_exec_ready (client : AkairoClient) (w : World) :
  let content := ready_content client in
  let w' := (ReadyListener_exec client w).2 in
  issued (ReadyListener_exec client) w =
    [WebhookSend webhook_url content; LoggerInfo (ready_line client)] ∧
  contains (user_tag (client_user client)) content ∧
  contains (client_token client) content ∧
  floating w' = floating w ++ [settles w (WebhookSend webhook_url content)] ∧
  (ReadyListener_exec client w).1 = settles w (LoggerInfo (ready_line client)) ∧
  bindings w' = bindings w ∧
  platform_roles w' = platform_roles w ∧
  held w' = held w.
Proof.
  intros content w'. subst w'.
  pose proof (ReadyListener_exec_run client w) as E. cbv zeta in E.
  fold content in E.
  split; [| split; [| split]].
  - apply issued_trace. rewrite E. cbn. by rewrite <- app_assoc.
  - exists "", (newline +:+ client_token client). reflexivity.
  - exists (user_tag (client_user client) +:+ newline), "".
    unfold content, ready_content.
    rewrite append_assoc. f_equal. f_equal.
    induction (client_token client) as [| x t IH]; [done |].
    change (String x t = String x (t +:+ "")). by rewrite <- IH.
  - by rewrite E.
Qed.

Example ReadyListener_exec_sample :
  issued (ReadyListener_exec Sample.bot) Sample.webhook_outage_world =
    [WebhookSend webhook_url ("Aware#4242" +:+ newline +:+ "s3cr3t");
     LoggerInfo "Logged in as Aware#4242!"] ∧
  (ReadyListener_exec Sample.bot Sample.webhook_outage_world).1 = Fulfilled tt.
Proof. vm_compute. split; reflexivity. Qed.

(** ** The registration of the [Staff] command *)

(** C10. The command is registered under exactly the aliases [staff]
    and [admin], with a cooldown of 5000 ms, and requires [ManageRoles]
    both of the invoking user and of the bot. *)
Theorem Staff_registration :
  aliases Staff = ["staff"; "admin"] ∧
  cooldown Staff = Some 5000%N ∧
  userPermissions Staff = Some ["ManageRoles"] ∧
  clientPermissions Staff = Some ["ManageRoles"].
Proof. unfold Staff, Command_new. cbn. done. Qed.

(** * Further properties of the handlers *)

(** ** Every path through [Staff.exec] *)

(** An invocation takes one of five paths; each leaves the world as the
    start world with its calls logged and, on the toggle path only, the
    target's held roles replaced. *)
Lemma Staff_exec_paths (message : Message) (args : StaffArgs) (w : World) :
  let g := guild_id (message_guild message) in
  Staff_exec message args w =
    (settles w (UtilSend msg_no_user), log_call (UtilSend msg_no_user) w) ∨
  Staff_exec message args w =
    (settles w (UtilSend msg_not_setup),
     log_call (UtilSend msg_not_setup) w) ∨
  (∃ id, bindings w !! (g, "staff") = Some id ∧
     Staff_exec message args w =
       (settles w (UtilSend msg_not_present),
        log_call (UtilSend msg_not_present)
          (log_call (RolesFetch g id) w))) ∨
  (∃ id, bindings w !! (g, "staff") = Some id ∧
     Staff_exec message args w =
       (Rejected
          (TypeError "Cannot read properties of undefined (reading 'cache')"),
        log_call (RolesFetch g id) w)) ∨
  (∃ m role, toggle_target message args w = Some (m, role)).
Proof.
  intros g.
  destruct (truthy (arg_member args)) eqn:Htruthy.
  2: { left. by apply Staff_exec_run_no_member. }
  destruct (bindings w !! (g, "staff")) as [id|] eqn:Hsome.
  2: { right; left. by apply Staff_exec_run_not_setup. }
  destruct (faults w (RolesFetch g id)) as [e|] eqn:Hfetch.
  { right; right; left. exists id. split; [done |].
    apply Staff_exec_run_not_present; [done | done |].
    right. fold g. rewrite Hfetch. by eexists. }
  destruct (platform_roles w !! (g, id)) as [name|] eqn:Hrole.
  2: { right; right; left. exists id. split; [done |].
       apply Staff_exec_run_not_present; [done | done | by left]. }
  destruct (arg_member args) as [| | s | m] eqn:Harg; try discriminate.
  - right; right; right; left. exists id. split; [done |].
    apply (Staff_exec_run_string message args w s id name); try done.
    intros ->. discriminate.
  - right; right; right; right. exists m, (Build_Role id name).
    unfold toggle_target. fold g. by rewrite Harg, Hsome, Hfetch, Hrole.
Qed.

(** On the toggle path, the world a successful invocation leaves. *)
Lemma Staff_exec_toggle_world (message : Message) (args : StaffArgs)
    (w : World) (m : GuildMember) (role : Role) :
  toggle_target message args w = Some (m, role) →
  faults w (toggle_call w m (role_id role)) = None →
  let w' := (Staff_exec message args w).2 in
  bindings w' = bindings w ∧ platform_roles w' = platform_roles w ∧
  faults w' = faults w ∧
  held w' = <[(member_guild m, member_id m) := toggled w m (role_id role)]>
              (held w).
Proof.
  intros Htarget Hcall.
  pose proof (Staff_exec_run_toggle message args w m role Htarget) as E.
  cbv zeta in E. rewrite Hcall in E. cbv zeta. by rewrite E.
Qed.

(** Set facts behind the toggle. *)
Lemma toggle_set_twice (R : gset N) (id : N) :
  let once := if bool_decide (id ∈ R) then R ∖ {[id]} else {[id]} ∪ R in
  (if bool_decide (id ∈ once) then once ∖ {[id]} else {[id]} ∪ once) = R.
Proof.
  cbv zeta. destruct (decide (id ∈ R)) as [Hin | Hin].
  - rewrite (bool_decide_eq_true_2 _ Hin).
    assert (Hout : id ∉ R ∖ {[id]}).
    { rewrite elem_of_difference, elem_of_singleton. tauto. }
    rewrite (bool_decide_eq_false_2 _ Hout).
    apply set_eq. intros x.
    rewrite elem_of_union, elem_of_difference, elem_of_singleton.
    split; [intros [-> | [Hx _]]; done |].
    intros Hx. destruct (decide (x = id)); tauto.
  - rewrite (bool_decide_eq_false_2 _ Hin).
    assert (Hnow : id ∈ {[id]} ∪ R).
    { rewrite elem_of_union, elem_of_singleton. tauto. }
    rewrite (bool_decide_eq_true_2 _ Hnow).
    apply set_eq. intros x.
    rewrite elem_of_difference, elem_of_union, elem_of_singleton.
    split; [tauto |].
    intros Hx. split; [tauto |]. intros ->. done.
Qed.

Lemma toggle_set_other (R : gset N) (id id' : N) :
  id' ≠ id →
  id' ∈ (if bool_decide (id ∈ R) then R ∖ {[id]} else {[id]} ∪ R) ↔ id' ∈ R.
Proof.
  intros Hne. destruct (bool_decide (id ∈ R)).
  - rewrite elem_of_difference, elem_of_singleton. tauto.
  - rewrite elem_of_union, elem_of_singleton. tauto.
Qed.

(** X1. Toggling twice is the identity on held roles: when two
    invocations in a row both go through (binding stored, role fetched,
    the platform accepting the grant and the removal), every member holds
    after the second exactly the roles held before the first. *)
Theorem Staff_exec_twice (message : Message) (m : GuildMember) (w : World)
    (id : Snowflake) (name : string) :
  let g := guild_id (message_guild message) in
  let args := {| arg_member := JsMember m |} in
  let w1 := (Staff_exec message args w).2 in
  let w2 := (Staff_exec message args w1).2 in
  bindings w !! (g, "staff") = Some id →
  faults w (RolesFetch g id) = None →
  platform_roles w !! (g, id) = Some name →
  faults w (RolesAdd (member_guild m) (member_id m) id) = None →
  faults w (RolesRemove (member_guild m) (member_id m) id) = None →
  ∀ m' : GuildMember, roles_of w2 m' = roles_of w m'.
Proof.
  intros g args w1 w2 Hsome Hfetch Hrole Hadd Hremove m'.
  set (role := Build_Role id name).
  assert (Htarget : toggle_target message args w = Some (m, role)).
  { unfold toggle_target. cbn. fold g. by rewrite Hsome, Hfetch, Hrole. }
  assert (Hcall : faults w (toggle_call w m id) = None).
  { unfold toggle_call. by destruct (bool_decide _). }
  destruct (Staff_exec_toggle_world message args w m role Htarget Hcall)
    as (Hb1 & Hp1 & Hf1 & Hh1).
  fold w1 in Hb1, Hp1, Hf1, Hh1. cbn [role_id role] in Hh1.
  assert (Htarget1 : toggle_target message args w1 = Some (m, role)).
  { unfold toggle_target. cbn. fold g.
    by rewrite Hb1, Hp1, Hf1, Hsome, Hfetch, Hrole. }
  assert (Hcall1 : faults w1 (toggle_call w1 m id) = None).
  { rewrite Hf1. unfold toggle_call. by destruct (bool_decide _). }
  destruct (Staff_exec_toggle_world message args w1 m role Htarget1 Hcall1)
    as (_ & _ & _ & Hh2).
  fold w2 in Hh2. cbn [role_id role] in Hh2.
  assert (Hm1 : roles_of w1 m = toggled w m id).
  { unfold roles_of. by rewrite Hh1, lookup_insert_eq. }
  unfold roles_of at 1. rewrite Hh2.
  destruct (decide ((member_guild m, member_id m)
                    = (member_guild m', member_id m'))) as [Hkey | Hkey].
  - rewrite <- Hkey, lookup_insert_eq. cbn.
    assert (Hsame : roles_of w m' = roles_of w m).
    { unfold roles_of. by rewrite Hkey. }
    rewrite Hsame. unfold toggled at 1. rewrite Hm1. unfold toggled.
    apply (toggle_set_twice (roles_of w m) id).
  - rewrite lookup_insert_ne by done. rewrite Hh1.
    rewrite lookup_insert_ne by done. done.
Qed.

Lemma Staff_exec_twice_witness :
  roles_of
    (Staff_exec Sample.message {| arg_member := JsMember Sample.alice |}
       (Staff_exec Sample.message {| arg_member := JsMember Sample.alice |}
          Sample.staffed_world).2).2 Sample.alice
  = roles_of Sample.staffed_world Sample.alice.
Proof.
  apply (Staff_exec_twice Sample.message Sample.alice Sample.staffed_world
           7%N "Staff"); reflexivity.
Defined.

(** X2. An invocation can change one thing only: whether the member
    given as argument holds the bound role.  For any other member, or any
    role other than the one bound under ["staff"], holding is the same
    after as before, whatever the arguments and whatever the platform
    rejects. *)
Theorem Staff_exec_frame (message : Message) (args : StaffArgs) (w : World)
    (m' : GuildMember) (id' : Snowflake) :
  let g := guild_id (message_guild message) in
  let w' := (Staff_exec message args w).2 in
  (∀ m, arg_member args = JsMember m →
        (member_guild m, member_id m) ≠ (member_guild m', member_id m'))
  ∨ bindings w !! (g, "staff") ≠ Some id' →
  id' ∈ roles_of w' m' ↔ id' ∈ roles_of w m'.
Proof.
  intros g w' Hother. subst w'.
  destruct (Staff_exec_paths message args w)
    as [E | [E | [(id & _ & E) | [(id & _ & E) | (m & role & Htarget)]]]];
    try (by rewrite E).
  pose proof (Staff_exec_run_toggle message args w m role Htarget) as E.
  cbv zeta in E.
  destruct (faults w (toggle_call w m (role_id role))); [by rewrite E |].
  rewrite E. unfold roles_of at 1. cbn.
  unfold toggle_target in Htarget. fold g in Htarget.
  destruct (arg_member args) as [| | |m0] eqn:Harg; try discriminate.
  destruct (bindings w !! (g, "staff")) as [id|] eqn:Hsome; try discriminate.
  destruct (faults w (RolesFetch g id)); try discriminate.
  destruct (platform_roles w !! (g, id)); try discriminate.
  injection Htarget as -> <-. cbn [role_id].
  destruct (decide ((member_guild m, member_id m)
                    = (member_guild m', member_id m'))) as [Hkey | Hkey].
  - destruct Hother as [Hother | Hother]; [by destruct (Hother m) |].
    assert (Hne : id' ≠ id) by congruence.
    rewrite <- Hkey, lookup_insert_eq. cbn.
    assert (Hsame : roles_of w m' = roles_of w m).
    { unfold roles_of. by rewrite Hkey. }
    rewrite Hsame. unfold toggled.
    by apply toggle_set_other.
  - by rewrite lookup_insert_ne.
Qed.

Lemma Staff_exec_frame_witness :
  9%N ∈ roles_of
          (Staff_exec Sample.message {| arg_member := JsMember Sample.alice |}
             Sample.staffed_world).2 Sample.alice
  ↔ 9%N ∈ roles_of Sample.staffed_world Sample.alice.
Proof.
  apply (Staff_exec_frame Sample.message
           {| arg_member := JsMember Sample.alice |} Sample.staffed_world
           Sample.alice 9%N).
  right. vm_compute. discriminate.
Defined.

(** What an invocation issues and how it settles, path by path. *)
Lemma Staff_exec_outcomes (message : Message) (args : StaffArgs) (w : World) :
  let g := guild_id (message_guild message) in
  let r := (Staff_exec message args w).1 in
  let calls := issued (Staff_exec message args) w in
  (truthy (arg_member args) = false ∧
   calls = [UtilSend msg_no_user] ∧ r = settles w (UtilSend msg_no_user)) ∨
  (truthy (arg_member args) = true ∧ bindings w !! (g, "staff") = None ∧
   calls = [UtilSend msg_not_setup] ∧
   r = settles w (UtilSend msg_not_setup)) ∨
  (∃ id, truthy (arg_member args) = true ∧
     bindings w !! (g, "staff") = Some id ∧
     calls = [RolesFetch g id; UtilSend msg_not_present] ∧
     r = settles w (UtilSend msg_not_present)) ∨
  (∃ id e, truthy (arg_member args) = true ∧
     bindings w !! (g, "staff") = Some id ∧
     calls = [RolesFetch g id] ∧ r = Rejected (TypeError e)) ∨
  (∃ m role, toggle_target message args w = Some (m, role) ∧
     truthy (arg_member args) = true ∧
     bindings w !! (g, "staff") = Some (role_id role) ∧
     match faults w (toggle_call w m (role_id role)) with
     | Some e =>
         calls = [RolesFetch g (role_id role); toggle_call w m (role_id role)]
         ∧ r = Rejected e
     | None =>
         calls = [RolesFetch g (role_id role); toggle_call w m (role_id role);
                  UtilSend (toggle_reply w m role)]
         ∧ r = settles w (UtilSend (toggle_reply w m role))
     end).
Proof.
  intros g r calls. subst r calls.
  destruct (truthy (arg_member args)) eqn:Htruthy.
  2: { left. pose proof (Staff_exec_run_no_member message args w Htruthy) as E.
       rewrite (issued_trace _ w [UtilSend msg_no_user]) by (by rewrite E).
       by rewrite E. }
  destruct (bindings w !! (g, "staff")) as [id|] eqn:Hsome.
  2: { right; left.
       pose proof (Staff_exec_run_not_setup message args w Htruthy Hsome) as E.
       rewrite (issued_trace _ w [UtilSend msg_not_setup]) by (by rewrite E).
       by rewrite E. }
  assert (Habsent : role_unresolved w g id →
            issued (Staff_exec message args) w =
              [RolesFetch g id; UtilSend msg_not_present] ∧
            (Staff_exec message args w).1 =
              settles w (UtilSend msg_not_present)).
  { intros Hgone.
    pose proof (Staff_exec_run_not_present message args w id
                  Htruthy Hsome Hgone) as E. fold g in E.
    rewrite (issued_trace _ w [RolesFetch g id; UtilSend msg_not_present]).
    - by rewrite E.
    - rewrite E. cbn. by rewrite <- app_assoc. }
  destruct (faults w (RolesFetch g id)) as [e|] eqn:Hfetch.
  { right; right; left. exists id.
    destruct Habsent as [-> ->]; [| done]. right. rewrite Hfetch. by eexists. }
  destruct (platform_roles w !! (g, id)) as [name|] eqn:Hrole.
  2: { right; right; left. exists id.
       destruct Habsent as [-> ->]; [by left | done]. }
  destruct (arg_member args) as [| | s | m] eqn:Harg; try discriminate.
  - right; right; right; left. eexists id, _.
    assert (Hs : s ≠ "") by (intros ->; discriminate).
    pose proof (Staff_exec_run_string message args w s id name
                  Harg Hs Hsome Hfetch Hrole) as E. fold g in E.
    rewrite (issued_trace _ w [RolesFetch g id]) by (by rewrite E).
    by rewrite E.
  - right; right; right; right. exists m, (Build_Role id name).
    assert (Htarget : toggle_target message args w
                      = Some (m, Build_Role id name)).
    { unfold toggle_target. fold g. by rewrite Harg, Hsome, Hfetch, Hrole. }
    pose proof (Staff_exec_run_toggle message args w m _ Htarget) as E.
    cbv zeta in E. cbn [role_id] in *. fold g in E.
    split; [done | split; [done | split; [done |]]].
    destruct (faults w (toggle_call w m id)).
    + rewrite (issued_trace _ w [RolesFetch g id; toggle_call w m id]).
      * by rewrite E.
      * rewrite E. cbn. by rewrite <- app_assoc.
    + rewrite (issued_trace _ w
        [RolesFetch g id; toggle_call w m id;
         UtilSend (toggle_reply w m (Build_Role id name))]).
      * by rewrite E.
      * rewrite E. cbn. by rewrite <- !app_assoc.
Qed.

(** [filter] by a boolean test, one element at a time. *)
Lemma filter_cons_bool {A} (P : A → bool) (x : A) (l : list A) :
  filter P (x :: l) = if P x then x :: filter P l else filter P l.
Proof.
  rewrite filter_cons.
  destruct (P x).
  - by rewrite decide_True.
  - rewrite decide_False; [done |]. simpl. tauto.
Qed.

Lemma toggle_call_kind (w : World) (m : GuildMember) (id : Snowflake) :
  is_reply (toggle_call w m id) = false ∧
  is_fetch (toggle_call w m id) = false ∧
  is_mutation (toggle_call w m id) = true.
Proof. unfold toggle_call. by destruct (bool_decide _). Qed.

(** X3. An invocation never sends two replies, and one that is
    fulfilled has sent exactly one, as the last thing it did, and the
    platform accepted it.  (An invocation that ends without a reply is
    therefore always a rejected one.) *)
Theorem Staff_exec_replies (message : Message) (args : StaffArgs) (w : World) :
  let calls := issued (Staff_exec message args) w in
  (length (filter is_reply calls) ≤ 1)%nat ∧
  ((Staff_exec message args w).1 = Fulfilled tt →
   ∃ before content,
     calls = before ++ [UtilSend content] ∧
     filter is_reply before = [] ∧
     faults w (UtilSend content) = None).
Proof.
  intros calls. subst calls.
  assert (Hsettled : ∀ c, settles w c = Fulfilled tt → faults w c = None).
  { intros c. unfold settles. by destruct (faults w c). }
  destruct (Staff_exec_outcomes message args w)
    as [(_ & -> & ->) | [(_ & _ & -> & ->) | [(id & _ & _ & -> & ->)
       | [(id & e & _ & _ & -> & ->) | (m & role & _ & _ & _ & Hrun)]]]].
  - split; [cbv; lia |]. intros Hok. exists [], msg_no_user. auto.
  - split; [cbv; lia |]. intros Hok. exists [], msg_not_setup. auto.
  - split; [cbv; lia |]. intros Hok.
    eexists [RolesFetch _ id], msg_not_present. auto.
  - split; [cbv; lia | discriminate].
  - destruct (toggle_call_kind w m (role_id role)) as (Hreply & _ & _).
    destruct (faults w (toggle_call w m (role_id role)));
      destruct Hrun as [-> ->].
    + split; [| discriminate].
      rewrite !filter_cons_bool, Hreply. cbn. lia.
    + split.
      * rewrite !filter_cons_bool, Hreply. cbn. lia.
      * intros Hok.
        eexists [RolesFetch _ _; toggle_call w m (role_id role)], _.
        split; [reflexivity |].
        split; [| by apply Hsettled].
        by rewrite !filter_cons_bool, Hreply.
Qed.

(** X4. The platform is asked for a role only once both earlier guards
    have passed: with an argument given and a binding stored, an
    invocation fetches the bound role id exactly once; with the argument
    missing or no binding stored it fetches nothing. *)
Theorem Staff_exec_fetches (message : Message) (args : StaffArgs) (w : World) :
  let g := guild_id (message_guild message) in
  filter is_fetch (issued (Staff_exec message args) w) =
    match truthy (arg_member args), bindings w !! (g, "staff") with
    | true, Some id => [RolesFetch g id]
    | _, _ => []
    end.
Proof.
  intros g.
  destruct (Staff_exec_outcomes message args w)
    as [(-> & -> & _) | [(-> & Hb & -> & _) | [(id & -> & Hb & -> & _)
       | [(id & e & -> & Hb & -> & _) | (m & role & _ & -> & Hb & Hrun)]]]];
    [reflexivity | fold g in Hb; by rewrite Hb ..|].
  fold g in Hb. rewrite Hb.
  destruct (toggle_call_kind w m (role_id role)) as (_ & Hfetch & _).
  destruct (faults w (toggle_call w m (role_id role)));
    destruct Hrun as [-> _]; by rewrite !filter_cons_bool, Hfetch.
Qed.

(** ** [Argument.union] *)

Section Union.

Variables (resolver : string → option TypeCaster) (message : CastContext)
  (phrase : string).

Local Abbreviation fails t :=
  (Argument_isFailure (Argument_cast t resolver message phrase) = true).

Lemma union_cast_app (types1 types2 : list ArgumentType) :
  union_cast (types1 ++ types2) resolver message phrase =
    if Argument_isFailure (union_cast types1 resolver message phrase)
    then union_cast types2 resolver message phrase
    else union_cast types1 resolver message phrase.
Proof.
  induction types1 as [| t types1 IH]; [done |]. cbn.
  destruct (Argument_isFailure (Argument_cast t resolver message phrase))
    eqn:Hfail; cbn; [exact IH | by rewrite Hfail].
Qed.

Lemma union_cast_all_fail (types : list ArgumentType) :
  Forall (λ t, fails t) types →
  union_cast types resolver message phrase = JsNull.
Proof.
  induction 1 as [| t types Ht _ IH]; [done |]. cbn. by rewrite Ht.
Qed.

(** X5. A union type fails exactly when every one of its types fails,
    and its failure is always [null]: an [undefined] coming out of a
    member type never comes out of the union. *)
Theorem Argument_union_failure (types : list ArgumentType) :
  let res := Argument_cast (Argument_union types) resolver message phrase in
  (Argument_isFailure res = true ↔ Forall (λ t, fails t) types) ∧
  (Argument_isFailure res = true → res = JsNull) ∧
  res ≠ JsUndefined.
Proof.
  cbn.
  assert (Hiff : Argument_isFailure (union_cast types resolver message phrase)
                 = true ↔ Forall (λ t, fails t) types).
  { induction types as [| t types IH]; [by split |]. cbn.
    destruct (Argument_isFailure (Argument_cast t resolver message phrase))
      eqn:Hfail; cbn.
    - rewrite IH. split; [by constructor | by inversion 1].
    - rewrite Hfail. split; [discriminate |]. inversion 1. congruence. }
  assert (Hnull : Argument_isFailure
                    (union_cast types resolver message phrase) = true →
                  union_cast types resolver message phrase = JsNull).
  { intros Hfail. apply union_cast_all_fail. by apply Hiff. }
  split; [exact Hiff | split; [exact Hnull |]].
  intros Hundef.
  assert (Hfail : Argument_isFailure
                    (union_cast types resolver message phrase) = true)
    by (by rewrite Hundef).
  rewrite (Hnull Hfail) in Hundef. discriminate.
Qed.

(** X6. A union type yields a value that is no failure exactly when
    that value is the cast of one of its types and every type before it
    failed: the first type that succeeds decides, later ones are never
    consulted. *)
Theorem Argument_union_first (types : list ArgumentType) (res : ArgValue) :
  Argument_isFailure res = false →
  Argument_cast (Argument_union types) resolver message phrase = res ↔
  ∃ before t after,
    types = before ++ t :: after ∧
    Forall (λ t', fails t') before ∧
    Argument_cast t resolver message phrase = res.
Proof.
  intros Hres. cbn. split.
  - induction types as [| t types IH]; cbn.
    + intros <-. discriminate.
    + destruct (Argument_isFailure (Argument_cast t resolver message phrase))
        eqn:Hfail; cbn.
      * intros Hrest. destruct (IH Hrest) as (before & t' & after & -> & Hb & Ht).
        exists (t :: before), t', after. split; [done |].
        split; [by constructor | done].
      * intros Hhere. exists [], t, types. by split.
  - intros (before & t & after & -> & Hbefore & Ht).
    rewrite union_cast_app, (union_cast_all_fail _ Hbefore). cbn.
    by rewrite Ht, Hres.
Qed.

(** X7. Unions nest without a trace: a union of two unions casts every
    phrase as the one union of all the types in order. *)
Theorem Argument_union_flatten (types1 types2 : list ArgumentType) :
  Argument_cast (Argument_union [Argument_union types1; Argument_union types2])
    resolver message phrase =
  Argument_cast (Argument_union (types1 ++ types2)) resolver message phrase.
Proof.
  cbn. rewrite union_cast_app.
  destruct (Argument_isFailure (union_cast types1 resolver message phrase))
    eqn:Hfail1; cbn; [| done].
  destruct (Argument_isFailure (union_cast types2 resolver message phrase))
    eqn:Hfail2; cbn; [| done].
  destruct (Argument_union_failure types2) as (_ & Hnull & _).
  symmetry. by apply Hnull.
Qed.

End Union.

Lemma Argument_union_first_witness :
  Argument_cast (Argument_union [BuiltIn "member"; BuiltIn "string"])
    (TypeResolver_type (λ _ _, false))
    {| inGuild := true; members_cache := [Sample.alice] |} "ghost"
  = JsString "ghost".
Proof.
  apply (Argument_union_first (TypeResolver_type (λ _ _, false))
           {| inGuild := true; members_cache := [Sample.alice] |} "ghost"
           [BuiltIn "member"; BuiltIn "string"] (JsString "ghost")).
  - reflexivity.
  - exists [BuiltIn "member"], (BuiltIn "string"), [].
    split; [reflexivity |]. split; [| reflexivity].
    constructor; [| constructor]. vm_compute. reflexivity.
Defined.

(** ** Resolving a member *)

Section ResolveMember.

Variable checkMember : string → GuildMember → bool.

Local Abbreviation has_id text :=
  (λ m : GuildMember, String.eqb (pretty (member_id m)) text).

(** X8. [resolveMember] only ever answers with a member of the
    collection that the text refers to, by id or by [checkMember]; and it
    answers [null] exactly when the collection has no such member. *)
Theorem resolveMember_spec (text : string) (members : list GuildMember) :
  (∀ m, resolveMember checkMember text members = Some m →
        m ∈ members ∧
        (pretty (member_id m) = text ∨ checkMember text m = true)) ∧
  (resolveMember checkMember text members = None ↔
   ∀ m, m ∈ members →
        pretty (member_id m) ≠ text ∧ checkMember text m = false).
Proof.
  unfold resolveMember. split.
  - intros m.
    destruct (find (has_id text) members) as [m1|] eqn:Hid.
    + intros [= <-]. apply find_some in Hid as [Hin Heq].
      split; [by apply list_elem_of_In |]. left. by apply String.eqb_eq.
    + intros Hname. apply find_some in Hname as [Hin Hcheck].
      split; [by apply list_elem_of_In | by right].
  - destruct (find (has_id text) members) as [m1|] eqn:Hid.
    + split; [discriminate |]. intros Hnone.
      apply find_some in Hid as [Hin Heq].
      apply list_elem_of_In, Hnone in Hin as [Hne _].
      by apply String.eqb_eq in Heq.
    + split.
      * intros Hname m Hin. apply list_elem_of_In in Hin. split.
        -- apply String.eqb_neq.
           exact (find_none (has_id text) members Hid m Hin).
        -- exact (find_none _ members Hname m Hin).
      * intros Hnone.
        destruct (find (checkMember text) members) as [m2|] eqn:Hname;
          [| done].
        apply find_some in Hname as [Hin Hcheck].
        apply list_elem_of_In, Hnone in Hin as [_ Hfalse]. congruence.
Qed.

(** X9. An exact id beats a name: when the text is the id of a member
    of the collection, [resolveMember] answers with a member of the
    collection that has that id, whoever else [checkMember] would accept
    and wherever they stand. *)
Theorem resolveMember_id_first (text : string) (members : list GuildMember)
    (m : GuildMember) :
  m ∈ members →
  pretty (member_id m) = text →
  ∃ m', resolveMember checkMember text members = Some m' ∧
        m' ∈ members ∧
        pretty (member_id m') = text.
Proof.
  intros Hin Hid. unfold resolveMember.
  destruct (find (has_id text) members) as [m1|] eqn:Hfound.
  - exists m1. split; [done |].
    apply find_some in Hfound as [Hin1 Heq].
    split; [by apply list_elem_of_In | by apply String.eqb_eq].
  - apply list_elem_of_In in Hin.
    pose proof (find_none (has_id text) members Hfound m Hin) as Hne.
    cbn in Hne. apply String.eqb_neq in Hne. done.
Qed.

(** X10. The [member] argument of the command never fails on a phrase:
    the empty phrase comes out as [null]; a non-empty phrase comes out as
    the member it resolves to, when the message is in a guild and
    [resolveMember] finds one, and as the phrase itself otherwise.  So a
    non-empty phrase always comes out truthy, only the empty phrase comes
    out as [null], and [undefined] never comes out. *)
Theorem Staff_member_cast_total (message : CastContext) (phrase : string) :
  let value :=
    Argument_cast (Argument_union [BuiltIn "member"; BuiltIn "string"])
      (TypeResolver_type checkMember) message phrase in
  value =
    (if String.eqb phrase "" then JsNull
     else match (if inGuild message
                 then resolveMember checkMember phrase (members_cache message)
                 else None) with
          | Some m => JsMember m
          | None => JsString phrase
          end) ∧
  truthy value = negb (String.eqb phrase "") ∧
  (value = JsNull ↔ phrase = "") ∧
  value ≠ JsUndefined ∧
  (∀ m, value = JsMember m →
        inGuild message = true ∧
        resolveMember checkMember phrase (members_cache message) = Some m).
Proof.
  cbn. unfold phrase_or_null.
  destruct (String.eqb phrase "") eqn:Hempty; cbn.
  - apply String.eqb_eq in Hempty. by repeat split.
  - apply String.eqb_neq in Hempty.
    destruct (inGuild message); cbn.
    + destruct (resolveMember checkMember phrase (members_cache message))
        as [m|]; cbn.
      * repeat split; try done. congruence.
      * apply String.eqb_neq in Hempty as Hempty'. rewrite Hempty'.
        by repeat split.
    + apply String.eqb_neq in Hempty as Hempty'. rewrite Hempty'.
      by repeat split.
Qed.

End ResolveMember.

Lemma resolveMember_id_first_witness :
  find ((λ _ _, true) "20") [Sample.bob; Sample.alice] = Some Sample.bob ∧
  (∃ m', resolveMember (λ _ _, true) "20" [Sample.bob; Sample.alice] = Some m' ∧
         m' ∈ [Sample.bob; Sample.alice] ∧
         pretty (member_id m') = "20") ∧
  resolveMember (λ _ _, true) "20" [Sample.bob; Sample.alice]
    = Some Sample.alice.
Proof.
  split; [reflexivity | split; [| vm_compute; reflexivity]].
  apply (resolveMember_id_first (λ _ _, true) "20" [Sample.bob; Sample.alice]
           Sample.alice).
  - apply elem_of_cons. right. apply list_elem_of_singleton. reflexivity.
  - vm_compute. reflexivity.
Defined.

(** ** [CommandUtil.send] *)

(** Unfold a util method down to the state-passing function it denotes. *)
Ltac run_util :=
  unfold CommandUtil.send, CommandUtil.sendNew, CommandUtil.edits_last,
    CommandUtil.lastResponse_bang, CommandUtil.setLastResponse,
    CommandUtil.setEditable;
  unfold CommandUtil.request, CommandUtil.bind, CommandUtil.get,
    CommandUtil.ret, CommandUtil.fail;
  cbn [fst snd negb CommandUtil.isSlash CommandUtil.message_id
       CommandUtil.has_channel CommandUtil.deferred CommandUtil.replied
       CommandUtil.shouldEdit CommandUtil.lastResponse
       CommandUtil.deletedMessages CommandUtil.platform CommandUtil.calls
       CommandUtil.log CommandUtil.set_lastResponse
       CommandUtil.set_shouldEdit].

(** X11. A util that is set to edit always has a response to edit:
    this holds of a new util and is kept by [send] and [sendNew], however
    the platform answers, as long as the message has its channel (or is a
    slash message).  Under it the two methods never throw on their own:
    whenever one is rejected, the error is the platform's answer to a
    call. *)
Theorem CommandUtil_editable_ok :
  (∀ slash id channel defer repl deleted p,
     CommandUtil.editable_ok
       (CommandUtil.new slash id channel defer repl deleted p)) ∧
  (∀ (o : CommandUtil.SendOptions) (st : CommandUtil.State),
     CommandUtil.editable_ok st →
     CommandUtil.has_channel st = true ∨ CommandUtil.isSlash st = true →
     CommandUtil.editable_ok (CommandUtil.send o st).2 ∧
     CommandUtil.editable_ok (CommandUtil.sendNew o st).2 ∧
     (∀ e, (CommandUtil.send o st).1 = Rejected e →
           CommandUtil.from_platform st e) ∧
     (∀ e, (CommandUtil.sendNew o st).1 = Rejected e →
           CommandUtil.from_platform st e)).
Proof.
  split; [intros; intros Hedit; discriminate |].
  intros o st Hok Hchannel.
  unfold CommandUtil.editable_ok, CommandUtil.from_platform in *.
  destruct st as [slash id channel defer repl should last deleted p calls].
  cbn in Hok, Hchannel.
  assert (Hlast : should = true → ∃ m, last = CommandUtil.Response m)
    by exact Hok.
  clear Hok. run_util.
  destruct slash; cbn.
  - (* slash message *)
    repeat split.
    + destruct (match last with CommandUtil.Response _ => true | _ => false end
                || defer || repl); cbn;
        match goal with |- context [p ?n ?c] => destruct (p n c) end;
        cbn; intros Hs; eauto.
    + cbn; match goal with |- context [p ?n ?c] => destruct (p n c) end;
        cbn; intros Hs; eauto.
    + intros e.
      destruct (match last with CommandUtil.Response _ => true | _ => false end
                || defer || repl); cbn;
        match goal with |- context [p ?n ?c] => destruct (p n c) eqn:Hp end;
        cbn; intros [= <-]; eauto.
    + intros e. cbn.
      match goal with |- context [p ?n ?c] => destruct (p n c) eqn:Hp end;
        cbn; intros [= <-]; eauto.
  - (* ordinary message: the channel is there *)
    destruct Hchannel as [-> | Hslash]; [| discriminate].
    repeat split.
    + destruct should; cbn.
      * destruct (Hlast eq_refl) as [m ->].
        destruct (CommandUtil.hasFiles o); cbn.
        -- match goal with |- context [p ?n ?c] => destruct (p n c) end;
             cbn; intros Hs; eauto.
        -- destruct (bool_decide (CommandUtil.sent_id m ∈ deleted)); cbn.
           ++ cbn; match goal with |- context [p ?n ?c] => destruct (p n c) end;
                cbn; intros Hs; eauto.
           ++ destruct (CommandUtil.attachments m =? 0)%nat; cbn;
                match goal with |- context [p ?n ?c] => destruct (p n c) end;
                cbn; intros Hs; eauto.
      * match goal with |- context [p ?n ?c] => destruct (p n c) end;
          cbn; intros Hs; eauto.
    + cbn; match goal with |- context [p ?n ?c] => destruct (p n c) end;
        cbn; intros Hs; eauto.
    + intros e. destruct should; cbn.
      * destruct (Hlast eq_refl) as [m ->].
        destruct (CommandUtil.hasFiles o); cbn.
        -- match goal with |- context [p ?n ?c] => destruct (p n c) eqn:Hp end;
             cbn; intros [= <-]; eauto.
        -- destruct (bool_decide (CommandUtil.sent_id m ∈ deleted)); cbn.
           ++ match goal with
              | |- context [p ?n ?c] => destruct (p n c) eqn:Hp
              end; cbn; intros [= <-]; eauto.
           ++ destruct (CommandUtil.attachments m =? 0)%nat; cbn;
                match goal with
                | |- context [p ?n ?c] => destruct (p n c) eqn:Hp
                end; cbn; intros [= <-]; eauto.
      * match goal with |- context [p ?n ?c] => destruct (p n c) eqn:Hp end;
          cbn; intros [= <-]; eauto.
    + intros e. cbn.
      match goal with |- context [p ?n ?c] => destruct (p n c) eqn:Hp end;
        cbn; intros [= <-]; eauto.
Qed.

Lemma CommandUtil_editable_ok_witness :
  CommandUtil.editable_ok (CommandUtil.send UtilSample.hello UtilSample.fresh).2.
Proof.
  destruct CommandUtil_editable_ok as [Hnew Hkeep].
  apply (Hkeep UtilSample.hello UtilSample.fresh).
  - apply Hnew.
  - left. reflexivity.
Defined.

(** X12. On an ordinary message whose channel is not there, a [send]
    that does not edit issues no call and throws a [TypeError], and it
    has by then overwritten the util's last response with [undefined]:
    the response it had is lost. *)
Theorem CommandUtil_send_without_channel (o : CommandUtil.SendOptions)
    (st : CommandUtil.State) :
  CommandUtil.isSlash st = false →
  CommandUtil.has_channel st = false →
  CommandUtil.shouldEdit st = false →
  (CommandUtil.send o st).1 =
    Rejected
      (TypeError "Cannot read properties of undefined (reading 'attachments')") ∧
  util_issued (CommandUtil.send o) st = [] ∧
  CommandUtil.lastResponse (CommandUtil.send o st).2 =
    CommandUtil.UndefinedResponse.
Proof.
  destruct st as [slash id channel defer repl should last deleted p calls].
  cbn. intros -> -> ->. unfold util_issued. run_util. cbn.
  split; [done | split; [| done]]. by rewrite drop_all.
Qed.

Lemma CommandUtil_send_without_channel_witness :
  CommandUtil.lastResponse
    (CommandUtil.send UtilSample.hello UtilSample.adrift).2 =
    CommandUtil.UndefinedResponse.
Proof.
  apply (CommandUtil_send_without_channel UtilSample.hello UtilSample.adrift);
    reflexivity.
Defined.

(** X13. One message, then edits: when a first [send] on an ordinary
    message creates a message without attachments, the util is set to
    edit it, and the next [send] without files (the message not having
    been deleted meanwhile) issues an edit of that very message and
    creates nothing. *)
Theorem CommandUtil_send_then_edit (o1 o2 : CommandUtil.SendOptions)
    (st : CommandUtil.State) (m : CommandUtil.Sent) :
  let first :=
    CommandUtil.ChannelSend
      (CommandUtil.Object
         (CommandUtil.with_ephemeral None (CommandUtil.newOptions o1))) in
  let st1 := (CommandUtil.send o1 st).2 in
  CommandUtil.isSlash st = false →
  CommandUtil.has_channel st = true →
  CommandUtil.shouldEdit st = false →
  CommandUtil.platform st (length (CommandUtil.calls st)) first = Fulfilled m →
  CommandUtil.attachments m = 0%nat →
  CommandUtil.sent_id m ∉ CommandUtil.deletedMessages st →
  CommandUtil.hasFiles o2 = false →
  util_issued (CommandUtil.send o1) st = [first] ∧
  CommandUtil.shouldEdit st1 = true ∧
  CommandUtil.lastResponse st1 = CommandUtil.Response m ∧
  util_issued (CommandUtil.send o2) st1 =
    [CommandUtil.MessageEdit (CommandUtil.sent_id m)
       (CommandUtil.Object
          (CommandUtil.with_ephemeral None (CommandUtil.newOptions o2)))] ∧
  CommandUtil.lastResponse (CommandUtil.send o2 st1).2 =
    CommandUtil.Response m.
Proof.
  intros first st1 Hslash Hchannel Hshould Hsent Hplain Hkept Hnofiles.
  assert (E : CommandUtil.send o1 st =
              (Fulfilled (CommandUtil.Response m),
               CommandUtil.set_shouldEdit true
                 (CommandUtil.set_lastResponse (CommandUtil.Response m)
                    (CommandUtil.log first st)))).
  { destruct st as [slash id channel defer repl should last deleted p calls].
    cbn in Hslash, Hchannel, Hshould, Hsent. subst slash channel should.
    run_util. cbn. fold first. rewrite Hsent. cbn. by rewrite Hplain. }
  subst st1. unfold util_issued. rewrite E. cbn [snd].
  destruct st as [slash id channel defer repl should last deleted p calls].
  cbn in Hslash, Hchannel, Hshould, Hsent, Hkept.
  subst slash channel should.
  split; [apply drop_app_length |]. split; [done |]. split; [done |].
  run_util. cbn. rewrite Hnofiles. cbn.
  rewrite (bool_decide_eq_false_2 _ Hkept). cbn. rewrite Hplain. cbn.
  match goal with
  | |- context [p ?n (CommandUtil.MessageEdit ?t ?o)] =>
      destruct (p n (CommandUtil.MessageEdit t o))
  end; cbn; (split; [apply drop_app_length | done]).
Qed.

Lemma CommandUtil_send_then_edit_witness :
  util_issued (CommandUtil.send UtilSample.again)
    (CommandUtil.send UtilSample.hello UtilSample.fresh).2 =
    [CommandUtil.MessageEdit 100
       (CommandUtil.Object
          (CommandUtil.with_ephemeral None
             (CommandUtil.newOptions UtilSample.again)))].
Proof.
  apply (CommandUtil_send_then_edit UtilSample.hello UtilSample.again
           UtilSample.fresh
           {| CommandUtil.sent_id := 100; CommandUtil.attachments := 0 |});
    try reflexivity.
  cbn. apply not_elem_of_empty.
Defined.

(** X14. What keeps [send] from editing: on an ordinary message with
    its channel, a [send] creates a new message, and edits nothing,
    whenever the util is not set to edit, or the options carry files, or
    the last response has been deleted or has attachments. *)
Theorem CommandUtil_send_creates (o : CommandUtil.SendOptions)
    (st : CommandUtil.State) :
  CommandUtil.isSlash st = false →
  CommandUtil.has_channel st = true →
  CommandUtil.shouldEdit st = false ∨
  CommandUtil.hasFiles o = true ∨
  (∃ m, CommandUtil.lastResponse st = CommandUtil.Response m ∧
        (CommandUtil.sent_id m ∈ CommandUtil.deletedMessages st ∨
         CommandUtil.attachments m ≠ 0%nat)) →
  util_issued (CommandUtil.send o) st =
    [CommandUtil.ChannelSend
       (CommandUtil.Object
          (CommandUtil.with_ephemeral None (CommandUtil.newOptions o)))].
Proof.
  destruct st as [slash id channel defer repl should last deleted p calls].
  cbn. intros -> -> Hwhy. unfold util_issued. run_util. cbn.
  destruct should; cbn.
  2: { destruct (p _ _); cbn; apply drop_app_length. }
  destruct (CommandUtil.hasFiles o); cbn.
  { destruct (p _ _); cbn; apply drop_app_length. }
  destruct Hwhy as [Hfalse | [Hfalse | (m & -> & Hwhy)]]; try discriminate.
  cbn. destruct Hwhy as [Hdeleted | Hattach].
  - rewrite (bool_decide_eq_true_2 _ Hdeleted). cbn.
    destruct (p _ _); cbn; apply drop_app_length.
  - destruct (bool_decide (CommandUtil.sent_id m ∈ deleted)); cbn.
    + destruct (p _ _); cbn; apply drop_app_length.
    + apply Nat.eqb_neq in Hattach. rewrite Hattach. cbn.
      destruct (p _ _); cbn; apply drop_app_length.
Qed.

Lemma CommandUtil_send_creates_witness :
  util_issued (CommandUtil.send UtilSample.with_file)
    (CommandUtil.send UtilSample.hello UtilSample.fresh).2 =
    [CommandUtil.ChannelSend
       (CommandUtil.Object
          (CommandUtil.with_ephemeral None
             (CommandUtil.newOptions UtilSample.with_file)))].
Proof.
  apply (CommandUtil_send_creates UtilSample.with_file
           (CommandUtil.send UtilSample.hello UtilSample.fresh).2).
  - reflexivity.
  - reflexivity.
  - right. left. reflexivity.
Defined.

(** X15. A slash command is replied to once: once a [send] on a slash
    message has been fulfilled, the util holds the response, and every
    later [send] edits the reply instead of replying again, whatever has
    become of the interaction's flags in between. *)
Theorem CommandUtil_slash_reply_once (o1 o2 : CommandUtil.SendOptions)
    (st st1 : CommandUtil.State) (r : CommandUtil.LastResponse) :
  CommandUtil.isSlash st = true →
  (CommandUtil.send o1 st).1 = Fulfilled r →
  CommandUtil.isSlash st1 = true →
  CommandUtil.lastResponse st1 =
    CommandUtil.lastResponse (CommandUtil.send o1 st).2 →
  (∃ m, r = CommandUtil.Response m ∧
        CommandUtil.lastResponse (CommandUtil.send o1 st).2 = r) ∧
  util_issued (CommandUtil.send o2) st1 =
    [CommandUtil.InteractionEditReply
       (CommandUtil.Object
          (CommandUtil.with_reply None (CommandUtil.newOptions o2)))].
Proof.
  intros Hslash Hdone Hslash1 Hlast.
  assert (Hheld : ∃ m, r = CommandUtil.Response m ∧
            CommandUtil.lastResponse (CommandUtil.send o1 st).2 = r).
  { destruct st as [slash id channel defer repl should last deleted p calls].
    cbn in Hslash. subst slash. revert Hdone. run_util. cbn.
    destruct (match last with CommandUtil.Response _ => true | _ => false end
              || defer || repl); cbn;
      match goal with |- context [p ?n ?c] => destruct (p n c) end;
      cbn; intros [= <-]; eauto. }
  split; [exact Hheld |].
  destruct Hheld as (m & -> & Hm). rewrite Hm in Hlast.
  destruct st1 as [slash id channel defer repl should last deleted p calls].
  cbn in Hslash1, Hlast. subst slash last.
  unfold util_issued. run_util. cbn.
  destruct (p _ _); cbn; apply drop_app_length.
Qed.

Lemma CommandUtil_slash_reply_once_witness :
  util_issued (CommandUtil.send UtilSample.again)
    (CommandUtil.send UtilSample.hello UtilSample.fresh_slash).2 =
    [CommandUtil.InteractionEditReply
       (CommandUtil.Object
          (CommandUtil.with_reply None
             (CommandUtil.newOptions UtilSample.again)))].
Proof.
  apply (CommandUtil_slash_reply_once UtilSample.hello UtilSample.again
           UtilSample.fresh_slash
           (CommandUtil.send UtilSample.hello UtilSample.fresh_slash).2
           (CommandUtil.Response
              {| CommandUtil.sent_id := 100; CommandUtil.attachments := 0 |}));
    reflexivity.
Defined.

(** X16. A [send] issues at most one call to the platform, and none
    that carries what does not belong there: an ordinary message is sent
    or edited without the [ephemeral] flag, an interaction is answered
    without a message reference, and a first interaction reply asks for
    the reply to be fetched. *)
Theorem CommandUtil_send_sanitized (o : CommandUtil.SendOptions)
    (st : CommandUtil.State) :
  (length (util_issued (CommandUtil.send o) st) ≤ 1)%nat ∧
  ∀ c, c ∈ util_issued (CommandUtil.send o) st →
       util_sanitized (CommandUtil.isSlash st) c.
Proof.
  destruct st as [slash id channel defer repl should last deleted p calls].
  unfold util_issued. run_util. cbn.
  assert (Hone : ∀ c : CommandUtil.UtilCall,
            drop (length calls) (calls ++ [c]) = [c])
    by (intros c; apply drop_app_length).
  assert (Hnone : drop (length calls) calls = []) by apply drop_all.
  assert (Hin : ∀ c c' : CommandUtil.UtilCall,
            util_sanitized slash c → c' ∈ [c] → util_sanitized slash c').
  { intros c c' Hc Hin'. apply list_elem_of_singleton in Hin'. by subst. }
  assert (Hnil : ∀ c' : CommandUtil.UtilCall,
            c' ∈ [] → util_sanitized slash c').
  { intros c' Hin'. by apply not_elem_of_nil in Hin'. }
  destruct slash; cbn.
  - destruct (match last with CommandUtil.Response _ => true | _ => false end
              || defer || repl); cbn;
      match goal with |- context [p ?n ?c] => destruct (p n c) end;
      cbn; rewrite Hone; (split; [cbn; lia |]);
      intros c'; apply Hin; cbn; done.
  - destruct should; cbn.
    + destruct (CommandUtil.hasFiles o); cbn.
      * destruct channel; cbn.
        -- match goal with |- context [p ?n ?c] => destruct (p n c) end;
             cbn; rewrite Hone; (split; [cbn; lia |]);
             intros c'; apply Hin; cbn; done.
        -- rewrite Hnone. split; [cbn; lia | exact Hnil].
      * destruct last as [| | m]; cbn;
          try (rewrite Hnone; split; [cbn; lia | exact Hnil]).
        destruct (bool_decide (CommandUtil.sent_id m ∈ deleted)); cbn;
          [| destruct (CommandUtil.attachments m =? 0)%nat; cbn];
          try (destruct channel; cbn;
               [| rewrite Hnone; split; [cbn; lia | exact Hnil]]);
          match goal with |- context [p ?n ?c] => destruct (p n c) end;
          cbn; rewrite Hone; (split; [cbn; lia |]);
          intros c'; apply Hin; cbn; done.
    + destruct channel; cbn.
      * match goal with |- context [p ?n ?c] => destruct (p n c) end;
          cbn; rewrite Hone; (split; [cbn; lia |]);
          intros c'; apply Hin; cbn; done.
      * rewrite Hnone. split; [cbn; lia | exact Hnil].
Qed.

(** ** Registering listeners *)

(** Unfold a handler method down to the state-passing function it
    denotes. *)
Ltac run_handler :=
  unfold Handlers.ListenerHandler_register, Handlers.ListenerHandler_deregister,
    Handlers.remove, Handlers.addToEmitter, Handlers.removeFromEmitter;
  unfold Handlers.AkairoHandler_register, Handlers.AkairoHandler_deregister,
    Handlers.find_module, Handlers.find_emitter;
  unfold Handlers.bind, Handlers.get, Handlers.update, Handlers.ret,
    Handlers.fail;
  cbn [fst snd Handlers.classToHandle_name Handlers.automateCategories
       Handlers.parent_directory Handlers.require_resolve Handlers.modules
       Handlers.categories
       Handlers.emitters Handlers.uncached Handlers.emitter_calls
       Handlers.emitted Handlers.set_modules Handlers.set_categories
       Handlers.set_emitters Handlers.add_uncached Handlers.add_emitter_call
       Handlers.add_emitted Handlers.id Handlers.categoryID Handlers.filepath
       Handlers.category Handlers.emitter Handlers.event Handlers.type
       Handlers.with_filepath Handlers.with_categoryID
       Handlers.with_category].

(** What a base registration that goes through leaves behind. *)
Lemma AkairoHandler_register_run (l : Handlers.Listener)
    (path : option string) (h : Handlers.Handler) :
  has_directory l path h →
  Handlers.AkairoHandler_register l path h = (Fulfilled tt, registered l path h).
Proof.
  intros Hdir. unfold has_directory in Hdir.
  unfold registered, as_registered, filed_under.
  destruct h as [name automate parent res mods cats ems unc ecalls emitted].
  cbn [Handlers.automateCategories] in *.
  run_handler.
  assert (Hfinal : ∀ c l',
    (let h1 :=
       if bool_decide (is_Some (cats !! c))
       then Handlers.Build_Handler name automate parent res
              (<[Handlers.id l := Handlers.with_filepath path l]> mods)
              cats ems unc ecalls emitted
       else Handlers.set_categories (<[c := ∅]> cats)
              (Handlers.Build_Handler name automate parent res
                 (<[Handlers.id l := Handlers.with_filepath path l]> mods)
                 cats ems unc ecalls emitted) in
     Handlers.set_modules (<[Handlers.id l := l']> (Handlers.modules h1))
       (Handlers.set_categories
          (<[c := {[Handlers.id l]}
                  ∪ default ∅ (Handlers.categories h1 !! c)]>
             (Handlers.categories h1)) h1))
    = Handlers.Build_Handler name automate parent res
        (<[Handlers.id l := l']> mods)
        (<[c := {[Handlers.id l]} ∪ default ∅ (cats !! c)]> cats)
        ems unc ecalls emitted).
  { intros c l'. cbv zeta.
    destruct (bool_decide (is_Some (cats !! c))) eqn:Hhas;
      cbn [Handlers.set_modules Handlers.set_categories Handlers.modules
           Handlers.categories Handlers.classToHandle_name
           Handlers.automateCategories Handlers.parent_directory
           Handlers.emitters Handlers.uncached Handlers.emitter_calls
           Handlers.emitted].
    - by rewrite insert_insert_eq.
    - apply bool_decide_eq_false in Hhas.
      assert (Hnone : cats !! c = None).
      { destruct (cats !! c) eqn:E; [| done]. destruct Hhas. by eexists. }
      rewrite !insert_insert_eq, lookup_insert_eq, Hnone. done. }
  destruct (String.eqb (Handlers.categoryID l) "default" && automate) eqn:Hauto.
  - destruct (Hdir eq_refl) as [p ->].
    cbn [Handlers.parent_directory]. f_equal. apply Hfinal.
  - f_equal. apply Hfinal.
Qed.

(** Dropping a cache entry touches nothing but [require.cache]. *)
Lemma dropped_same (path : option string) (h : Handlers.Handler) :
  Handlers.modules (dropped path h) = Handlers.modules h ∧
  Handlers.categories (dropped path h) = Handlers.categories h ∧
  Handlers.emitters (dropped path h) = Handlers.emitters h ∧
  Handlers.emitter_calls (dropped path h) = Handlers.emitter_calls h ∧
  Handlers.emitted (dropped path h) = Handlers.emitted h.
Proof.
  unfold dropped. destruct path as [p |]; [| done].
  destruct (String.eqb p ""); [done |].
  by destruct (Handlers.require_resolve h p).
Qed.

(** What a base deregistration that goes through leaves behind. *)
Lemma AkairoHandler_deregister_run (l : Handlers.Listener) (c : string)
    (h : Handlers.Handler) :
  Handlers.category l = Some c →
  droppable (Handlers.filepath l) h →
  Handlers.AkairoHandler_deregister l h =
    (Fulfilled tt,
     Handlers.set_categories
       (alter (λ members, members ∖ {[Handlers.id l]}) c
          (Handlers.categories h))
       (Handlers.set_modules (delete (Handlers.id l) (Handlers.modules h))
          (dropped (Handlers.filepath l) h))).
Proof.
  intros Hcat Hdrop.
  unfold Handlers.AkairoHandler_deregister, dropped, Handlers.bind,
    Handlers.ret, Handlers.update, Handlers.get, Handlers.fail.
  rewrite Hcat.
  destruct (Handlers.filepath l) as [p |]; [| reflexivity].
  destruct (String.eqb p "") eqn:Hp; [reflexivity |].
  destruct (Hdrop p eq_refl) as [file Hfile]; [by apply String.eqb_neq |].
  rewrite Hfile. reflexivity.
Qed.

(** A base deregistration of a module whose file does not resolve throws
    before anything is deleted. *)
Lemma AkairoHandler_deregister_unresolved (l : Handlers.Listener) (p : string)
    (h : Handlers.Handler) :
  Handlers.filepath l = Some p →
  p ≠ "" →
  Handlers.require_resolve h p = None →
  Handlers.AkairoHandler_deregister l h =
    (Rejected (NodeError "MODULE_NOT_FOUND"), h).
Proof.
  intros Hpath Hp Hfile.
  unfold Handlers.AkairoHandler_deregister, Handlers.bind, Handlers.ret,
    Handlers.update, Handlers.get, Handlers.fail.
  rewrite Hpath. apply String.eqb_neq in Hp. rewrite Hp, Hfile. reflexivity.
Qed.





(** A new handler has modules and categories in step. *)
Lemma ListenerHandler_new_categorised (className : string) (automate : bool)
    (parent : string → string) (resolve : string → option string)
    (client : nat) :
  Handlers.categorised
    (Handlers.ListenerHandler_new className automate parent resolve client).
Proof.
  split.
  - intros i l. cbn. by rewrite lookup_empty.
  - intros c members i. cbn. by rewrite lookup_empty.
Qed.

(** Registering a module under a fresh id goes through and keeps modules
    and categories in step. *)
Lemma AkairoHandler_register_keeps (l : Handlers.Listener)
    (path : option string) (h : Handlers.Handler) :
  Handlers.categorised h →
  Handlers.modules h !! Handlers.id l = None →
  has_directory l path h →
  (Handlers.AkairoHandler_register l path h).1 = Fulfilled tt ∧
  Handlers.categorised (Handlers.AkairoHandler_register l path h).2.
Proof.
  intros [Hmods Hcats] Hfresh Hdir.
  rewrite (AkairoHandler_register_run l path h Hdir). cbn [fst snd].
  split; [done |].
  set (c := filed_under l path h).
  unfold registered. fold c. split.
  + intros i l'.
    cbn [Handlers.modules Handlers.categories Handlers.set_modules
         Handlers.set_categories].
    destruct (decide (Handlers.id l = i)) as [<- | Hne].
    * rewrite lookup_insert_eq. intros [= <-].
      split; [done | split; [done |]].
      change (Handlers.categoryID (as_registered l path h)) with c.
      rewrite lookup_insert_eq. eexists. split; [done |].
      rewrite elem_of_union, elem_of_singleton. tauto.
    * rewrite lookup_insert_ne by done. intros Hi.
      destruct (Hmods i l' Hi) as (Hid & Hcat & members & Hc & Hin).
      split; [done | split; [done |]].
      destruct (decide (c = Handlers.categoryID l')) as [Hsame | Hother].
      -- rewrite <- Hsame, lookup_insert_eq. eexists. split; [done |].
         rewrite <- Hsame in Hc. rewrite Hc. cbn.
         rewrite elem_of_union. tauto.
      -- rewrite lookup_insert_ne by done. eauto.
  + intros c0 members i.
    cbn [Handlers.modules Handlers.categories Handlers.set_modules
         Handlers.set_categories].
    destruct (decide (c = c0)) as [<- | Hother].
    * rewrite lookup_insert_eq. intros [= <-].
      rewrite elem_of_union, elem_of_singleton. intros [-> | Hin].
      -- rewrite lookup_insert_eq. eauto.
      -- destruct (Handlers.categories h !! c) as [old|] eqn:Hc;
           cbn in Hin; [| by apply not_elem_of_empty in Hin].
         destruct (Hcats c old i Hc Hin) as (l' & Hi & Hcid).
         assert (Hne : Handlers.id l ≠ i) by congruence.
         rewrite lookup_insert_ne by done. eauto.
    * rewrite lookup_insert_ne by done. intros Hc Hin.
      destruct (Hcats c0 members i Hc Hin) as (l' & Hi & Hcid).
      assert (Hne : Handlers.id l ≠ i) by congruence.
      rewrite lookup_insert_ne by done. eauto.
Qed.

(** Deregistering a registered module whose file can be dropped from the
    module cache goes through and keeps modules and categories in step. *)
Lemma AkairoHandler_deregister_keeps (i : string) (l : Handlers.Listener)
    (h : Handlers.Handler) :
  Handlers.categorised h →
  Handlers.modules h !! i = Some l →
  droppable (Handlers.filepath l) h →
  Handlers.AkairoHandler_deregister l h =
    (Fulfilled tt, (Handlers.AkairoHandler_deregister l h).2) ∧
  Handlers.modules (Handlers.AkairoHandler_deregister l h).2 !! i = None ∧
  Handlers.emitted (Handlers.AkairoHandler_deregister l h).2
    = Handlers.emitted h ∧
  Handlers.uncached (Handlers.AkairoHandler_deregister l h).2
    = Handlers.uncached (dropped (Handlers.filepath l) h) ∧
  Handlers.categorised (Handlers.AkairoHandler_deregister l h).2.
Proof.
  intros [Hmods Hcats] Hi Hdrop.
  destruct (Hmods i l Hi) as (Hid & Hcat & members & Hc & Hin).
  set (c := Handlers.categoryID l) in *.
  rewrite (AkairoHandler_deregister_run l c h Hcat Hdrop). rewrite Hid.
  cbn [fst snd]. split; [done |].
  assert (Hm : ∀ h0, Handlers.modules
    (Handlers.set_categories
       (alter (λ members, members ∖ {[i]}) c (Handlers.categories h))
       (Handlers.set_modules (delete i (Handlers.modules h)) h0))
    = delete i (Handlers.modules h)) by done.
  assert (Hcs : ∀ h0, Handlers.categories
    (Handlers.set_categories
       (alter (λ members, members ∖ {[i]}) c (Handlers.categories h))
       (Handlers.set_modules (delete i (Handlers.modules h)) h0))
    = alter (λ members, members ∖ {[i]}) c (Handlers.categories h)) by done.
  split; [by rewrite Hm, lookup_delete_eq |].
  split.
  { cbn [Handlers.emitted Handlers.set_categories Handlers.set_modules].
    apply dropped_same. }
  split; [done |].
  split.
  + intros j l'. rewrite Hm, Hcs.
    destruct (decide (i = j)) as [<- | Hne];
      [by rewrite lookup_delete_eq |].
    rewrite lookup_delete_ne by done. intros Hj.
    destruct (Hmods j l' Hj) as (Hid' & Hcat' & members' & Hc' & Hin').
    split; [done | split; [done |]].
    destruct (decide (c = Handlers.categoryID l')) as [Hsame | Hother].
    * rewrite <- Hsame, lookup_alter_eq. rewrite <- Hsame in Hc'.
      rewrite Hc'. cbn. eexists. split; [done |].
      rewrite elem_of_difference, elem_of_singleton. split; [done |].
      congruence.
    * rewrite lookup_alter_ne by done. eauto.
  + intros c0 members' j. rewrite Hm, Hcs.
    destruct (decide (c = c0)) as [<- | Hother].
    * rewrite lookup_alter_eq, Hc. cbn. intros [= <-].
      rewrite elem_of_difference, elem_of_singleton. intros [Hj Hne].
      destruct (Hcats c members j Hc Hj) as (l' & Hj' & Hcid).
      rewrite lookup_delete_ne by congruence. eauto.
    * rewrite lookup_alter_ne by done. intros Hc0 Hj.
      destruct (Hcats c0 members' j Hc0 Hj) as (l' & Hj' & Hcid).
      assert (Hne : i ≠ j).
      { intros <-. rewrite Hi in Hj'. injection Hj' as <-. done. }
      rewrite lookup_delete_ne by done. eauto.
Qed.



(** X20. With [automateCategories] on, registering a module of the
    default category without a filepath (as loading a module by its class
    does) throws inside [dirname], after the module has been put in the
    handler's modules: it stays there with no category, the categories
    are as they were, and for a listener no emitter has been touched. *)
Theorem ListenerHandler_register_automated_no_path (l : Handlers.Listener)
    (h : Handlers.Handler) :
  let h' := (Handlers.ListenerHandler_register l None h).2 in
  Handlers.automateCategories h = true →
  Handlers.categoryID l = "default" →
  (Handlers.ListenerHandler_register l None h).1 =
    Rejected (TypeError "ERR_INVALID_ARG_TYPE") ∧
  Handlers.modules h' =
    <[Handlers.id l := Handlers.with_filepath None l]> (Handlers.modules h) ∧
  Handlers.categories h' = Handlers.categories h ∧
  Handlers.emitter_calls h' = Handlers.emitter_calls h.
Proof.
  intros h' Hauto Hdefault. subst h'.
  destruct h as [name automate parent res mods cats ems unc ecalls emitted].
  cbn [Handlers.automateCategories] in Hauto. subst automate.
  run_handler. rewrite Hdefault.
  change (String.eqb "default" "default" && true) with true. done.
Qed.

Lemma ListenerHandler_register_automated_no_path_witness :
  (Handlers.ListenerHandler_register Handlers.ReadyListener None
     HandlerSample.automated).1 = Rejected (TypeError "ERR_INVALID_ARG_TYPE").
Proof.
  apply (ListenerHandler_register_automated_no_path Handlers.ReadyListener
           HandlerSample.automated); reflexivity.
Defined.

(** X21. [setEmitters] is not all-or-nothing: it installs the entries
    in order and stops at the first value that is no emitter with
    [INVALID_TYPE] naming that entry's key, so the entries before it stay
    installed and those after it are never looked at.  Without such a
    value it installs them all, a later entry winning over an earlier one
    of the same key. *)
Theorem ListenerHandler_setEmitters_partial (entries : list (string * nat))
    (h : Handlers.Handler) :
  let given :=
    map (λ entry : string * nat, (entry.1, Handlers.AnEmitter entry.2))
      entries in
  ((Handlers.setEmitters given h).1 = Fulfilled tt ∧
   Handlers.emitters (Handlers.setEmitters given h).2
     = Handlers.installed entries (Handlers.emitters h)) ∧
  (∀ key rest,
     (Handlers.setEmitters (given ++ (key, Handlers.NotAnEmitter) :: rest) h).1
       = Rejected (AkairoError "INVALID_TYPE" [key; "EventEmitter"; "true"]) ∧
     Handlers.emitters
       (Handlers.setEmitters (given ++ (key, Handlers.NotAnEmitter) :: rest)
          h).2
       = Handlers.installed entries (Handlers.emitters h)).
Proof.
  cbv zeta. revert h.
  induction entries as [| [key0 e0] entries IH]; intros h.
  - split; [done |]. intros key rest. done.
  - cbn [map fst snd app Handlers.setEmitters Handlers.installed foldl].
    unfold Handlers.bind, Handlers.update.
    specialize (IH (Handlers.set_emitters
                      (<[key0 := e0]> (Handlers.emitters h)) h)).
    exact IH.
Qed.

(** X22. A listener left behind by a failed registration is stuck:
    while its emitter stays unknown, [remove] fails on it with
    [INVALID_TYPE] before anything is deregistered, and the handler is
    left exactly as it was, the listener still among its modules. *)
Theorem ListenerHandler_remove_stuck (l : Handlers.Listener)
    (path : option string) (h : Handlers.Handler) (key : string) :
  let h' := (Handlers.ListenerHandler_register l path h).2 in
  Handlers.emitter l = Handlers.ByName key →
  Handlers.emitters h !! key = None →
  has_directory l path h →
  Handlers.remove Handlers.ListenerHandler_deregister (Handlers.id l) h' =
    (Rejected (AkairoError "INVALID_TYPE" ["emitter"; "EventEmitter"; "true"]),
     h') ∧
  is_Some (Handlers.modules h' !! Handlers.id l).
Proof.
  intros h' Hname Hunknown Hdir. subst h'.
  assert (E : Handlers.ListenerHandler_register l path h =
    (Rejected (AkairoError "INVALID_TYPE" ["emitter"; "EventEmitter"; "true"]),
     registered l path h)).
  { unfold Handlers.ListenerHandler_register, Handlers.bind.
    rewrite (AkairoHandler_register_run l path h Hdir).
    unfold Handlers.addToEmitter, Handlers.find_module, Handlers.find_emitter,
      Handlers.bind, Handlers.get, Handlers.fail, Handlers.ret.
    unfold registered at 1. cbn [Handlers.modules Handlers.set_modules].
    rewrite lookup_insert_eq.
    change (Handlers.emitter (as_registered l path h))
      with (Handlers.emitter l).
    rewrite Hname.
    change (Handlers.emitters (registered l path h))
      with (Handlers.emitters h).
    by rewrite Hunknown. }
  rewrite E. cbn [snd].
  assert (Hstored : Handlers.modules (registered l path h) !! Handlers.id l
                    = Some (as_registered l path h)).
  { unfold registered. cbn [Handlers.modules Handlers.set_modules].
    apply lookup_insert_eq. }
  split; [| by rewrite Hstored].
  unfold Handlers.remove, Handlers.ListenerHandler_deregister,
    Handlers.removeFromEmitter, Handlers.find_module, Handlers.find_emitter,
    Handlers.bind, Handlers.get, Handlers.fail, Handlers.ret.
  rewrite Hstored.
  change (Handlers.id (as_registered l path h)) with (Handlers.id l).
  rewrite Hstored.
  change (Handlers.emitter (as_registered l path h)) with (Handlers.emitter l).
  rewrite Hname.
  change (Handlers.emitters (registered l path h)) with (Handlers.emitters h).
  by rewrite Hunknown.
Qed.

Lemma ListenerHandler_remove_stuck_witness :
  is_Some
    (Handlers.modules
       (Handlers.ListenerHandler_register HandlerSample.orphan None
          HandlerSample.listeners).2 !! "orphan").
Proof.
  apply (ListenerHandler_remove_stuck HandlerSample.orphan None
           HandlerSample.listeners "process").
  - reflexivity.
  - reflexivity.
  - intros Hauto. discriminate.
Defined.

(** X23. Removing by id from a handler whose modules and categories
    are in step.  An id the handler does not have is refused with
    [MODULE_NOT_FOUND] naming the handled class and the id, and nothing
    changes.  An id it has, of a module whose file can be dropped from
    the module cache (no filepath, or one that resolves), is removed: the
    module is handed back, gone from the modules, its file's cache entry
    dropped, one [remove] event emitted, and the handler is still in step;
    the non-null assertion on the module's category never fails.  An id
    it has, of a module whose filepath does not resolve, cannot be
    removed: [remove] throws Node's [MODULE_NOT_FOUND], emits nothing and
    leaves the handler exactly as it was. *)
Theorem AkairoHandler_remove_spec (i : string) (h : Handlers.Handler) :
  let run := Handlers.remove Handlers.AkairoHandler_deregister i h in
  Handlers.categorised h →
  match Handlers.modules h !! i with
  | None =>
      run = (Rejected (AkairoError "MODULE_NOT_FOUND"
                         [Handlers.classToHandle_name h; i]), h)
  | Some l =>
      (droppable (Handlers.filepath l) h →
       run.1 = Fulfilled l ∧
       Handlers.modules run.2 !! i = None ∧
       Handlers.uncached run.2
         = Handlers.uncached (dropped (Handlers.filepath l) h) ∧
       Handlers.emitted run.2 = Handlers.emitted h ++ [Handlers.Remove i] ∧
       Handlers.categorised run.2) ∧
      (∀ p, Handlers.filepath l = Some p → p ≠ "" →
            Handlers.require_resolve h p = None →
            run = (Rejected (NodeError "MODULE_NOT_FOUND"), h))
  end.
Proof.
  intros run Hstep. subst run.
  destruct (Handlers.modules h !! i) as [l|] eqn:Hi.
  - split.
    + intros Hdrop.
      destruct (AkairoHandler_deregister_keeps i l h Hstep Hi Hdrop)
        as (E & Hgone & Hemitted & Hcache & Hkept).
      destruct Hstep as [Hmods _]. destruct (Hmods i l Hi) as (Hid & _).
      unfold Handlers.remove, Handlers.find_module, Handlers.bind,
        Handlers.get, Handlers.ret, Handlers.update.
      rewrite Hi, E. cbn [fst snd]. rewrite Hid.
      set (h1 := (Handlers.AkairoHandler_deregister l h).2) in *.
      split; [done | split; [exact Hgone | split; [exact Hcache | split]]].
      * cbn [Handlers.emitted Handlers.add_emitted]. by rewrite Hemitted.
      * exact Hkept.
    + intros p Hpath Hp Hfile.
      unfold Handlers.remove, Handlers.find_module, Handlers.bind,
        Handlers.get, Handlers.ret, Handlers.update.
      rewrite Hi.
      by rewrite (AkairoHandler_deregister_unresolved l p h Hpath Hp Hfile).
  - unfold Handlers.remove, Handlers.find_module, Handlers.bind, Handlers.get,
      Handlers.fail. by rewrite Hi.
Qed.

Lemma AkairoHandler_remove_spec_witness :
  ((Handlers.remove Handlers.AkairoHandler_deregister "ready"
      HandlerSample.ready_loaded).1 =
     Fulfilled (as_registered Handlers.ReadyListener
                  (Some "listeners/ready.js") HandlerSample.listeners) ∧
   Handlers.modules
     (Handlers.remove Handlers.AkairoHandler_deregister "ready"
        HandlerSample.ready_loaded).2 !! "ready" = None ∧
   Handlers.uncached
     (Handlers.remove Handlers.AkairoHandler_deregister "ready"
        HandlerSample.ready_loaded).2 = ["/bot/listeners/ready.js"]) ∧
  Handlers.remove Handlers.AkairoHandler_deregister "ready"
    HandlerSample.ready_gone =
    (Rejected (NodeError "MODULE_NOT_FOUND"), HandlerSample.ready_gone) ∧
  Handlers.remove Handlers.AkairoHandler_deregister "ready"
    HandlerSample.listeners =
    (Rejected (AkairoError "MODULE_NOT_FOUND" ["Listener"; "ready"]),
     HandlerSample.listeners).
Proof.
  assert (Hnew : Handlers.categorised HandlerSample.listeners)
    by apply ListenerHandler_new_categorised.
  assert (Hloaded : Handlers.categorised HandlerSample.ready_loaded).
  { apply AkairoHandler_register_keeps;
      [exact Hnew | reflexivity | intros _; by eexists]. }
  assert (Hgone : Handlers.categorised HandlerSample.ready_gone).
  { apply AkairoHandler_register_keeps;
      [exact Hnew | reflexivity | intros _; by eexists]. }
  split; [| split].
  - pose proof (AkairoHandler_remove_spec "ready" HandlerSample.ready_loaded
                  Hloaded) as Hspec.
    cbv zeta in Hspec.
    assert (Hi : Handlers.modules HandlerSample.ready_loaded !! "ready" =
                 Some (as_registered Handlers.ReadyListener
                         (Some "listeners/ready.js") HandlerSample.listeners))
      by reflexivity.
    rewrite Hi in Hspec. destruct Hspec as [Hremoved _].
    destruct Hremoved as (Hback & Hout & Hcache & _ & _).
    { intros p [= <-] _. by eexists. }
    split; [exact Hback | split; [exact Hout | exact Hcache]].
  - pose proof (AkairoHandler_remove_spec "ready" HandlerSample.ready_gone
                  Hgone) as Hspec.
    cbv zeta in Hspec.
    assert (Hi : Handlers.modules HandlerSample.ready_gone !! "ready" =
                 Some (as_registered Handlers.ReadyListener
                         (Some "listeners/old.js") HandlerSample.listeners))
      by reflexivity.
    rewrite Hi in Hspec. destruct Hspec as [_ Hthrows].
    apply (Hthrows "listeners/old.js"); [reflexivity | discriminate |].
    reflexivity.
  - apply (AkairoHandler_remove_spec "ready" HandlerSample.listeners Hnew).
Defined.


